(** * Compile-time loop unroller (static-loop-unrollers/loop_unroller.h)

    A shallow embedding of the [loop_unroller] namespace: the [LoopParams]
    descriptor with its static members, the generic [ForLoop], the five
    specialised entry points and [NestedForLoop_2], followed by the
    properties of the enumeration they perform.

    Modelling decisions.

    - The six template parameters of [LoopParams] become the six fields of
      a record.  The indices are C++ [int] template arguments; they are
      integers of [Z] here and the 32-bit range is enforced where the
      source has the compiler enforce it: a template argument must be a
      constant expression of type [int], and signed overflow inside a
      constant expression makes the program ill-formed (it never wraps).
    - [Comparator] and [Modifier] are functor classes called as
      [Comparator()(CurrIdx, EndIdx)] and [Modifier()(CurrIdx, ChangeVal)];
      they become functions.  A modifier returns [None] when its call is
      not a constant expression.
    - [ForLoop] recurses once per state and need not stop, so the functions
      take a [fuel], the number of levels of the recursion they follow, and
      answer [OutOfFuel] when the call has not ended within it.  Through
      distinct states every level is one more instantiation and an endless
      run is a program the compiler gives up on; on a state that [GetNext]
      maps to itself the levels are run-time calls of one instantiation,
      and the callback is invoked again at each of them.  [fuel] is a
      counter of the model, not the depth limit of a compiler.
    - The callback is a state transformer on the state of the world [St];
      the variadic pack [args...] is one value [args] handed unchanged to
      every invocation.
    - A rejected instantiation yields no program at all, hence no callback
      invocation: the outcome [IllFormed] carries no state. *)

From Stdlib Require Import String ZArith List Bool Lia.
Import ListNotations.
Local Open Scope Z_scope.

(** ** The type [int] of the template arguments *)

Definition INT_MIN : Z := -2147483648.
Definition INT_MAX : Z := 2147483647.

Definition fits_int (z : Z) : bool := (INT_MIN <=? z) && (z <=? INT_MAX).

(** The functors of <functional> that the header uses, at type [int]. *)
Module std.

(** The value of an [int] expression inside a constant expression: the
    mathematical result when it is representable, nothing otherwise. *)
Definition constant (z : Z) : option Z :=
  if fits_int z then Some z else None.

Definition less (x y : Z) : bool := x <? y.
Definition less_equal (x y : Z) : bool := x <=? y.
Definition greater (x y : Z) : bool := x >? y.
Definition greater_equal (x y : Z) : bool := x >=? y.
Definition equal_to (x y : Z) : bool := x =? y.

Definition plus (x y : Z) : option Z := constant (x + y).
Definition multiplies (x y : Z) : option Z := constant (x * y).

End std.

(** ** [struct LoopParams]

    The four integer fields stand for [int] template arguments: a state
    written in a program has them in the range of [int]. *)

Record LoopParams : Type := MkLoopParams {
  CurrIdx : Z;
  EndIdx : Z;
  ChangeVal : Z;
  Comparator : Z -> Z -> bool;
  Modifier : Z -> Z -> option Z;
  StartIdx : Z
}.

(** [LoopParams<CurrIdx, EndIdx, ChangeVal = 1, Comparator = less<int>,
    Modifier = plus<int>, StartIdx = CurrIdx>]: an omitted template
    argument is [None]. *)
Definition LoopParams_ (curr_idx end_idx : Z) (change_val : option Z)
    (comparator : option (Z -> Z -> bool))
    (modifier : option (Z -> Z -> option Z))
    (start_idx : option Z) : LoopParams :=
  MkLoopParams curr_idx end_idx
    (match change_val with Some c => c | None => 1 end)
    (match comparator with Some f => f | None => std.less end)
    (match modifier with Some f => f | None => std.plus end)
    (match start_idx with Some s => s | None => curr_idx end).

(** [GetNext].  Its declared return type names
    [LoopParams<Modifier()(CurrIdx, ChangeVal), ...>], and the declarations
    of the members are instantiated with the class: the template argument
    has to be a constant expression that fits [int] for the class
    [LoopParams<CurrIdx, ...>] to exist at all.  [GetNext LP = None] says
    that the class cannot be instantiated. *)
Definition GetNext (LP : LoopParams) : option LoopParams :=
  match Modifier LP (CurrIdx LP) (ChangeVal LP) with
  | Some next_idx =>
      if fits_int next_idx
      then Some (MkLoopParams next_idx (EndIdx LP) (ChangeVal LP)
                   (Comparator LP) (Modifier LP) (StartIdx LP))
      else None
  | None => None
  end.

Definition Reset (LP : LoopParams) : LoopParams :=
  MkLoopParams (StartIdx LP) (EndIdx LP) (ChangeVal LP)
    (Comparator LP) (Modifier LP) (StartIdx LP).

Definition IsValid (LP : LoopParams) : bool :=
  Comparator LP (CurrIdx LP) (EndIdx LP).

Definition GetCurrIdx (LP : LoopParams) : Z := CurrIdx LP.
Definition GetEndIdx (LP : LoopParams) : Z := EndIdx LP.
Definition GetChangeVal (LP : LoopParams) : Z := ChangeVal LP.
Definition GetComparator (LP : LoopParams) : Z -> Z -> bool := Comparator LP.
Definition GetModifier (LP : LoopParams) : Z -> Z -> option Z := Modifier LP.
Definition GetStartIdx (LP : LoopParams) : Z := StartIdx LP.

(** The class [LoopParams<...>] described by [LP] can be instantiated. *)
Definition instantiable (LP : LoopParams) : bool :=
  match GetNext LP with Some _ => true | None => false end.

(** [n] applications of [GetNext]. *)
Fixpoint advance (n : nat) (LP : LoopParams) : option LoopParams :=
  match n with
  | O => Some LP
  | S n' =>
      match GetNext LP with
      | Some next => advance n' next
      | None => None
      end
  end.

(** ** Outcome of an unrolled call *)

Inductive outcome (St : Type) : Type :=
| Done (st : St)      (* the call compiled, ran and returned in state [st] *)
| IllFormed           (* an instantiation was rejected by the compiler *)
| OutOfFuel.          (* the recursion is deeper than the fuel given *)

Arguments Done {St} st.
Arguments IllFormed {St}.
Arguments OutOfFuel {St}.

(** Sequencing: what follows a call runs only when the call returned. *)
Definition and_then {St St' : Type} (r : outcome St)
    (k : St -> outcome St') : outcome St' :=
  match r with
  | Done st => k st
  | IllFormed => IllFormed
  | OutOfFuel => OutOfFuel
  end.

Notation "x <- r ;; k" := (and_then r (fun x => k))
  (at level 61, r at next level, right associativity).

(** ** Generic API: [ForLoop]

    Two overloads, selected by [enable_if_t] on [LP::IsValid()]; exactly
    one of them is viable.  [LP] is passed by value, so its class is
    instantiated whichever overload is chosen: a state whose class does
    not exist ([GetNext LP = None]) makes the call ill-formed, also when
    the state is the invalid one that ends the recursion. *)
Fixpoint ForLoop {Args St : Type} (fuel : nat) (LP : LoopParams)
    (func : Z -> Args -> St -> St) (args : Args) (st : St) : outcome St :=
  match fuel with
  | O => OutOfFuel
  | S fuel' =>
      match GetNext LP with
      | None => IllFormed
      | Some next =>
          if IsValid LP
          then ForLoop fuel' next func args (func (GetCurrIdx LP) args st)
          else Done st
      end
  end.

(** ** Specialised API

    [change_val = None] is the call that omits the [ChangeVal] template
    argument and takes the default written in the declaration. *)
Section Specialised.
Context {Args St : Type}.
Variable fuel : nat.
Variables start_idx end_idx : Z.
Variable change_val : option Z.
Variable func : Z -> Args -> St -> St.
Variable args : Args.
Variable st : St.

Definition ForLoopLessThan : outcome St :=
  ForLoop fuel
    (MkLoopParams start_idx end_idx
       (match change_val with Some c => c | None => 1 end)
       std.less std.plus start_idx)
    func args st.

Definition ForLoopLessThanEqualTo : outcome St :=
  ForLoop fuel
    (MkLoopParams start_idx end_idx
       (match change_val with Some c => c | None => 1 end)
       std.less_equal std.plus start_idx)
    func args st.

Definition ForLoopGreaterThan : outcome St :=
  ForLoop fuel
    (MkLoopParams start_idx end_idx
       (match change_val with Some c => c | None => -1 end)
       std.greater std.plus start_idx)
    func args st.

Definition ForLoopGreaterThanEqualTo : outcome St :=
  ForLoop fuel
    (MkLoopParams start_idx end_idx
       (match change_val with Some c => c | None => -1 end)
       std.greater_equal std.plus start_idx)
    func args st.

Definition ForLoopEqualTo : outcome St :=
  ForLoop fuel
    (MkLoopParams start_idx end_idx
       (match change_val with Some c => c | None => 1 end)
       std.equal_to std.plus start_idx)
    func args st.

End Specialised.

(** ** Nested loop API: [NestedForLoop_2]

    Two overloads: [!LP_out::IsValid()] returns at once;
    [LP_out::IsValid() && LP_in::IsValid()] runs [ForLoop] on the inner
    state as passed, with the outer index put in front of the pack, and
    recurses on [LP_out::GetNext()] and [LP_in::Reset()].  With a valid
    outer and an invalid inner state neither candidate survives overload
    resolution.  Both states are passed by value. *)
Fixpoint NestedForLoop_2 {Args St : Type} (fuel : nat) (p q : LoopParams)
    (func : Z -> Z -> Args -> St -> St) (args : Args) (st : St)
    : outcome St :=
  match fuel with
  | O => OutOfFuel
  | S fuel' =>
      match GetNext p, GetNext q with
      | Some p_next, Some _ =>
          if negb (IsValid p) then Done st
          else if IsValid q then
            st' <- ForLoop fuel' q
                     (fun i (pack : Z * Args) => func i (fst pack) (snd pack))
                     (GetCurrIdx p, args) st ;;
            NestedForLoop_2 fuel' p_next (Reset q) func args st'
          else IllFormed
      | _, _ => IllFormed
      end
  end.

(** ** loop_unroller_examples.cpp

    What [main] writes to [std::cout], one [line] per [std::endl]. *)

Inductive line : Type := Line (label : string) (value : Z).

(** [struct MyFunc]: prints "Functor " and [I::value * val].  The product
    is computed on run-time [int]s; the model has the mathematical
    product, which is the printed value whenever it is representable (in
    [main], [val] is 5 and the indices are 10, ..., 2). *)
Definition MyFunc (i : Z) (val : Z) (out : list line) : list line :=
  (out ++ [Line "Functor " (i * val)])%list.

(** The lambda of the second call: prints "Lambda " and the index. *)
Definition print_lambda (a : Z) (_ : unit) (out : list line) : list line :=
  (out ++ [Line "Lambda " a])%list.

(** The lambda of the third call: prints its string argument and the
    index. *)
Definition print_power (idx : Z) (str : string) (out : list line)
    : list line :=
  (out ++ [Line str idx])%list.

Definition main (fuel : nat) (out : list line) : outcome (list line) :=
  out <- ForLoopGreaterThan fuel 10 1 None MyFunc 5 out ;;
  out <- ForLoopLessThanEqualTo fuel 1 20 None print_lambda tt out ;;
  ForLoop fuel
    (LoopParams_ 1 64 (Some 2) (Some std.less_equal) (Some std.multiplies)
       None)
    print_power "Power of 2: "%string out.

(** ** Observing an enumeration *)

(** The callbacks invoked on the indices [idxs], in that order. *)
Definition invoke_each {Args St : Type} (func : Z -> Args -> St -> St)
    (args : Args) (idxs : list Z) (st : St) : St :=
  fold_left (fun s i => func i args s) idxs st.

(** The two-index callbacks invoked on the (inner, outer) pairs [prs]. *)
Definition invoke_pairs {Args St : Type} (func : Z -> Z -> Args -> St -> St)
    (args : Args) (prs : list (Z * Z)) (st : St) : St :=
  fold_left (fun s io => func (fst io) (snd io) args s) prs st.

(** A callback that appends the index it receives to a log. *)
Definition record_index {Args : Type} (i : Z) (_ : Args) (log : list Z)
    : list Z := log ++ [i].

(** A callback that appends its (inner, outer) indices to a log. *)
Definition record_pair {Args : Type} (i o : Z) (_ : Args)
    (log : list (Z * Z)) : list (Z * Z) := log ++ [(i, o)].

(** The indices of the first [n] states reached from [LP]. *)
Fixpoint visited (n : nat) (LP : LoopParams) : list Z :=
  match n with
  | O => []
  | S n' =>
      GetCurrIdx LP ::
      match GetNext LP with
      | Some next => visited n' next
      | None => []
      end
  end.

(** [start, start + step, ..., start + (n - 1) * step]. *)
Fixpoint arith_seq (start step : Z) (n : nat) : list Z :=
  match n with
  | O => []
  | S n' => start :: arith_seq (start + step) step n'
  end.

(** Least number of steps of size [step > 0] that take [s] to [e] or
    beyond: [max(0, ceil((e - s) / step))]. *)
Definition steps_to (s e step : Z) : nat :=
  Z.to_nat (Z.max 0 ((e - s + step - 1) / step)).

(** Every inner index of [ins] paired with each outer index of [outs],
    the inner index varying fastest. *)
Definition inner_fastest (ins outs : list Z) : list (Z * Z) :=
  flat_map (fun o => map (fun i => (i, o)) ins) outs.

(** [enumerates LP idxs]: starting from [LP], the states reached by
    [GetNext] are valid with indices [idxs], in this order, and the state
    after them exists and is not valid. *)
Inductive enumerates : LoopParams -> list Z -> Prop :=
| enumerates_stop (LP : LoopParams) :
    instantiable LP = true -> IsValid LP = false -> enumerates LP []
| enumerates_step (LP next : LoopParams) (idxs : list Z) :
    GetNext LP = Some next -> IsValid LP = true -> enumerates next idxs ->
    enumerates LP (GetCurrIdx LP :: idxs).

(** * Properties *)

(** ** Basic facts about [int] constants and the state *)

Lemma fits_int_iff (z : Z) : fits_int z = true <-> INT_MIN <= z <= INT_MAX.
Proof.
  unfold fits_int. rewrite andb_true_iff, !Z.leb_le. tauto.
Qed.

Lemma fits_int_false_iff (z : Z) :
  fits_int z = false <-> z < INT_MIN \/ INT_MAX < z.
Proof.
  unfold fits_int. rewrite andb_false_iff, !Z.leb_gt. tauto.
Qed.

Lemma constant_fits (z : Z) : fits_int z = true -> std.constant z = Some z.
Proof. unfold std.constant. now intros ->. Qed.

Lemma constant_overflow (z : Z) : fits_int z = false -> std.constant z = None.
Proof. unfold std.constant. now intros ->. Qed.

(** With [plus<int>] the class exists exactly when [CurrIdx + ChangeVal]
    is representable. *)
Lemma GetNext_plus (c e d s : Z) (cmp : Z -> Z -> bool) :
  GetNext (MkLoopParams c e d cmp std.plus s) =
  if fits_int (c + d) then Some (MkLoopParams (c + d) e d cmp std.plus s)
  else None.
Proof.
  unfold GetNext, std.plus, std.constant; simpl.
  destruct (fits_int (c + d)) eqn:E; simpl; [now rewrite E | reflexivity].
Qed.

Lemma instantiable_GetNext (LP : LoopParams) :
  instantiable LP = true <-> exists next, GetNext LP = Some next.
Proof.
  unfold instantiable. destruct (GetNext LP) as [next|].
  - split; [eauto | reflexivity].
  - split; [discriminate | intros [? ?]; discriminate].
Qed.

(** [GetNext] changes the current index only. *)
Lemma GetNext_fields (LP next : LoopParams) :
  GetNext LP = Some next ->
  Modifier LP (CurrIdx LP) (ChangeVal LP) = Some (CurrIdx next) /\
  EndIdx next = EndIdx LP /\ ChangeVal next = ChangeVal LP /\
  Comparator next = Comparator LP /\ Modifier next = Modifier LP /\
  StartIdx next = StartIdx LP.
Proof.
  unfold GetNext. destruct (Modifier LP _ _) as [i|]; [|discriminate].
  destruct (fits_int i); [|discriminate].
  intros [= <-]. simpl. repeat split; reflexivity.
Qed.

Lemma advance_fields (n : nat) : forall LP LP',
  advance n LP = Some LP' ->
  EndIdx LP' = EndIdx LP /\ ChangeVal LP' = ChangeVal LP /\
  Comparator LP' = Comparator LP /\ Modifier LP' = Modifier LP /\
  StartIdx LP' = StartIdx LP.
Proof.
  induction n as [|n IH]; intros LP LP'; simpl.
  - intros [= <-]. auto.
  - destruct (GetNext LP) as [next|] eqn:E; [|discriminate].
    intros H. apply IH in H. apply GetNext_fields in E.
    destruct H as (-> & -> & -> & -> & ->).
    destruct E as (_ & -> & -> & -> & -> & ->). auto.
Qed.

Lemma advance_S_inv (n : nat) (LP last : LoopParams) :
  advance (S n) LP = Some last ->
  exists next, GetNext LP = Some next /\ advance n next = Some last.
Proof.
  simpl. destruct (GetNext LP) as [next|]; [eauto | discriminate].
Qed.

(** ** One level of [ForLoop] *)

Section ForLoopFacts.
Context {Args St : Type}.
Variable func : Z -> Args -> St -> St.
Variable args : Args.

Lemma ForLoop_valid (fuel : nat) (LP next : LoopParams) (st : St) :
  GetNext LP = Some next -> IsValid LP = true ->
  ForLoop (S fuel) LP func args st =
  ForLoop fuel next func args (func (GetCurrIdx LP) args st).
Proof. simpl. now intros -> ->. Qed.

Lemma ForLoop_invalid (fuel : nat) (LP : LoopParams) (st : St) :
  instantiable LP = true -> IsValid LP = false ->
  ForLoop (S fuel) LP func args st = Done st.
Proof.
  unfold instantiable. simpl.
  destruct (GetNext LP); [now intros _ -> | discriminate].
Qed.

Lemma ForLoop_rejected (fuel : nat) (LP : LoopParams) (st : St) :
  GetNext LP = None -> ForLoop (S fuel) LP func args st = IllFormed.
Proof. simpl. now intros ->. Qed.

(** More fuel never changes an outcome that was reached. *)
Lemma ForLoop_fuel_stable (fuel : nat) :
  forall (LP : LoopParams) (st : St) (fuel' : nat),
  (fuel <= fuel')%nat ->
  ForLoop fuel LP func args st <> OutOfFuel ->
  ForLoop fuel' LP func args st = ForLoop fuel LP func args st.
Proof.
  induction fuel as [|fuel IH]; intros LP st fuel' Hle Hne.
  - now contradiction Hne.
  - destruct fuel' as [|fuel']; [lia|].
    simpl in *. destruct (GetNext LP) as [next|]; [|reflexivity].
    destruct (IsValid LP); [|reflexivity].
    apply IH; [lia | assumption].
Qed.

Lemma invoke_each_cons (i : Z) (idxs : list Z) (st : St) :
  invoke_each func args (i :: idxs) st =
  invoke_each func args idxs (func i args st).
Proof. reflexivity. Qed.

Lemma invoke_each_app (l1 l2 : list Z) (st : St) :
  invoke_each func args (l1 ++ l2) st =
  invoke_each func args l2 (invoke_each func args l1 st).
Proof. unfold invoke_each. apply fold_left_app. Qed.

(** The run over [n] valid states followed by an invalid one. *)
Lemma ForLoop_enumerates (n : nat) :
  forall (LP last : LoopParams) (st : St) (fuel : nat),
  advance n LP = Some last ->
  (forall k LPk, (k < n)%nat -> advance k LP = Some LPk ->
                 IsValid LPk = true) ->
  IsValid last = false -> instantiable last = true ->
  (n < fuel)%nat ->
  ForLoop fuel LP func args st =
  Done (invoke_each func args (visited n LP) st).
Proof.
  induction n as [|n IH]; intros LP last st fuel Hadv Hvalid Hlast Hinst Hf;
    (destruct fuel as [|fuel]; [lia|]).
  - injection Hadv as <-. now apply ForLoop_invalid.
  - destruct (advance_S_inv _ _ _ Hadv) as (next & Hnext & Hadv').
    assert (Hv : IsValid LP = true)
      by (apply (Hvalid 0%nat LP); [lia | reflexivity]).
    rewrite (ForLoop_valid _ _ next st Hnext Hv).
    simpl visited. rewrite Hnext, invoke_each_cons.
    apply (IH next last); try assumption; [|lia].
    intros k LPk Hk HLPk. apply (Hvalid (S k)); [lia|].
    simpl. now rewrite Hnext.
Qed.

(** Conversely a call that returns has gone through such a run. *)
Lemma ForLoop_Done_inv (fuel : nat) :
  forall (LP : LoopParams) (st st' : St),
  ForLoop fuel LP func args st = Done st' ->
  exists (n : nat) (last : LoopParams),
    (n < fuel)%nat /\ advance n LP = Some last /\
    (forall k LPk, (k < n)%nat -> advance k LP = Some LPk ->
                   IsValid LPk = true) /\
    IsValid last = false /\ instantiable last = true /\
    st' = invoke_each func args (visited n LP) st.
Proof.
  induction fuel as [|fuel IH]; intros LP st st'; simpl; [discriminate|].
  destruct (GetNext LP) as [next|] eqn:Hnext; [|discriminate].
  destruct (IsValid LP) eqn:Hv.
  - intros H. apply IH in H.
    destruct H as (n & last & Hn & Hadv & Hvalid & Hlast & Hinst & ->).
    exists (S n), last. repeat split; auto.
    + lia.
    + simpl. now rewrite Hnext.
    + intros [|k] LPk Hk; simpl.
      * now intros [= <-].
      * rewrite Hnext. apply Hvalid. lia.
    + simpl visited. now rewrite Hnext.
  - intros [= <-]. exists 0%nat, LP. repeat split; auto.
    + lia.
    + intros k LPk Hk. lia.
    + unfold instantiable. now rewrite Hnext.
Qed.

End ForLoopFacts.

Lemma invoke_each_record {Args : Type} (args : Args) (idxs log : list Z) :
  invoke_each record_index args idxs log = log ++ idxs.
Proof.
  revert log. induction idxs as [|i idxs IH]; intros log; simpl.
  - now rewrite app_nil_r.
  - unfold invoke_each in *. simpl. rewrite IH. unfold record_index.
    now rewrite <- app_assoc.
Qed.

(** [visited n LP] lists the indices of the states [LP], [GetNext LP], ...
    one entry per state, in the order the states are reached. *)
Lemma visited_length (n : nat) : forall LP last,
  advance n LP = Some last -> length (visited n LP) = n.
Proof.
  induction n as [|n IH]; intros LP last H; [reflexivity|].
  destruct (advance_S_inv _ _ _ H) as (next & Hnext & Hadv).
  simpl. rewrite Hnext. f_equal. now apply (IH next last).
Qed.

Lemma visited_nth (n : nat) : forall LP k LPk,
  (k < n)%nat -> advance k LP = Some LPk ->
  nth_error (visited n LP) k = Some (GetCurrIdx LPk).
Proof.
  induction n as [|n IH]; intros LP k LPk Hk H; [lia|].
  destruct k as [|k].
  - injection H as <-. reflexivity.
  - destruct (advance_S_inv _ _ _ H) as (next & Hnext & Hadv).
    simpl. rewrite Hnext. apply IH; [lia | assumption].
Qed.

(** ** The generic enumeration *)

Section ForLoopRuns.
Context {Args St : Type}.
Variable func : Z -> Args -> St -> St.
Variable args : Args.

(** A run over [n] valid states that reaches a state whose class cannot
    be instantiated. *)
Lemma ForLoop_run_rejected (n : nat) :
  forall (LP last : LoopParams) (st : St) (fuel : nat),
  advance n LP = Some last ->
  (forall k LPk, (k < n)%nat -> advance k LP = Some LPk ->
                 IsValid LPk = true) ->
  instantiable last = false -> (n < fuel)%nat ->
  ForLoop fuel LP func args st = IllFormed.
Proof.
  induction n as [|n IH]; intros LP last st fuel Hadv Hvalid Hinst Hf;
    (destruct fuel as [|fuel]; [lia|]).
  - injection Hadv as <-. apply ForLoop_rejected.
    unfold instantiable in Hinst. now destruct (GetNext LP).
  - destruct (advance_S_inv _ _ _ Hadv) as (next & Hnext & Hadv').
    assert (Hv : IsValid LP = true)
      by (apply (Hvalid 0%nat LP); [lia | reflexivity]).
    rewrite (ForLoop_valid func args fuel LP next st Hnext Hv).
    apply (IH next last); try assumption; [|lia].
    intros k LPk Hk HLPk. apply (Hvalid (S k)); [lia|].
    simpl. now rewrite Hnext.
Qed.

Lemma ForLoop_IllFormed_inv (fuel : nat) :
  forall (LP : LoopParams) (st : St),
  ForLoop fuel LP func args st = IllFormed ->
  exists (n : nat) (last : LoopParams),
    (n < fuel)%nat /\ advance n LP = Some last /\
    (forall k LPk, (k < n)%nat -> advance k LP = Some LPk ->
                   IsValid LPk = true) /\
    instantiable last = false.
Proof.
  induction fuel as [|fuel IH]; intros LP st; simpl; [discriminate|].
  destruct (GetNext LP) as [next|] eqn:Hnext.
  - destruct (IsValid LP) eqn:Hv; [|discriminate].
    intros H. apply IH in H.
    destruct H as (n & last & Hn & Hadv & Hvalid & Hinst).
    exists (S n), last. repeat split; auto.
    + lia.
    + simpl. now rewrite Hnext.
    + intros [|k] LPk Hk; simpl.
      * now intros [= <-].
      * rewrite Hnext. apply Hvalid. lia.
  - intros _. exists 0%nat, LP. repeat split; auto.
    + lia.
    + intros k LPk Hk. lia.
    + unfold instantiable. now rewrite Hnext.
Qed.

End ForLoopRuns.

(** C1, counterexample.  [LoopParams<2147483646, 2147483647>] is a state
    whose class is instantiated and whose predicate holds, so the callback
    should be invoked with 2147483646; the advanced state needs the index
    2147483648, the call is rejected and nothing is ever invoked. *)
Lemma ForLoop_valid_state_rejected :
  instantiable (LoopParams_ 2147483646 2147483647 None None None None)
  = true /\
  IsValid (LoopParams_ 2147483646 2147483647 None None None None) = true /\
  forall fuel,
    (forall log,
       ForLoop fuel (LoopParams_ 2147483646 2147483647 None None None None)
         (@record_index unit) tt [] <> Done log) /\
    ForLoop (S (S fuel))
      (LoopParams_ 2147483646 2147483647 None None None None)
      (@record_index unit) tt [] = IllFormed.
Proof.
  split; [reflexivity|]. split; [reflexivity|].
  intros fuel. split; [|reflexivity].
  intros log. destruct fuel as [|[|fuel]]; discriminate.
Qed.

(** C1, as the code has it.  For every state and every callback, follow
    the states reached by [GetNext]: let the first [n] of them satisfy the
    predicate and let [last], the state after them, be one that fails the
    predicate or whose class cannot be instantiated.  When [last] is
    instantiable, [ForLoop] invokes the callback exactly on the indices of
    the [n] valid states, once each, in the order they are reached (the
    k-th invocation receives the index of the k-th state), and returns;
    for [n = 0] it returns without an invocation.  When [last] is not
    instantiable the call is rejected and nothing is invoked.  Every call
    that returns, and every call that is rejected, is such a run. *)
Theorem ForLoop_once_per_valid_index {Args St : Type} (LP : LoopParams)
    (func : Z -> Args -> St -> St) (args : Args) (st : St) :
  (forall n last,
     advance n LP = Some last ->
     (forall k LPk, (k < n)%nat -> advance k LP = Some LPk ->
                    IsValid LPk = true) ->
     IsValid last = false \/ instantiable last = false ->
     length (visited n LP) = n /\
     (forall k LPk, (k < n)%nat -> advance k LP = Some LPk ->
                    nth_error (visited n LP) k = Some (GetCurrIdx LPk)) /\
     forall fuel, (n < fuel)%nat ->
       ForLoop fuel LP func args st =
       if instantiable last
       then Done (invoke_each func args (visited n LP) st)
       else IllFormed) /\
  (forall fuel st',
     ForLoop fuel LP func args st = Done st' ->
     exists n last,
       advance n LP = Some last /\
       (forall k LPk, (k < n)%nat -> advance k LP = Some LPk ->
                      IsValid LPk = true) /\
       IsValid last = false /\ instantiable last = true /\
       st' = invoke_each func args (visited n LP) st) /\
  (forall fuel,
     ForLoop fuel LP func args st = IllFormed ->
     exists n last,
       advance n LP = Some last /\
       (forall k LPk, (k < n)%nat -> advance k LP = Some LPk ->
                      IsValid LPk = true) /\
       instantiable last = false).
Proof.
  split; [|split].
  - intros n last Hadv Hvalid Hlast.
    split; [now apply (visited_length n LP last)|].
    split; [intros k LPk Hk HLPk; now apply visited_nth|].
    intros fuel Hf. destruct (instantiable last) eqn:Hinst.
    + destruct Hlast as [Hlast|Hlast]; [|discriminate].
      now apply (ForLoop_enumerates func args n LP last).
    + now apply (ForLoop_run_rejected func args n LP last).
  - intros fuel st' H. apply ForLoop_Done_inv in H.
    destruct H as (n & last & _ & Hadv & Hvalid & Hlast & Hinst & ->).
    exists n, last. auto.
  - intros fuel H. apply ForLoop_IllFormed_inv in H.
    destruct H as (n & last & _ & Hadv & Hvalid & Hinst).
    exists n, last. auto.
Qed.

Lemma ForLoop_once_per_valid_index_witness :
  ForLoop 4 (LoopParams_ 1 4 None None None None)
    (@record_index unit) tt [] = Done [1; 2; 3].
Proof.
  destruct (ForLoop_once_per_valid_index
              (LoopParams_ 1 4 None None None None)
              (@record_index unit) tt []) as (Hrun & _).
  destruct (Hrun 3%nat (MkLoopParams 4 4 1 std.less std.plus 1))
    as (_ & _ & Hfuel).
  - reflexivity.
  - intros [|[|[|k]]] LPk Hk; [intros [= <-]; reflexivity .. | lia].
  - left. reflexivity.
  - apply (Hfuel 4%nat). lia.
Defined.

(** C9, counterexample.  [LoopParams<2147483647, 0>] fails its predicate
    at entry (2147483647 < 0 is false), so [ForLoop] should return at once;
    the class of the state needs the index 2147483648 and the call is
    rejected instead. *)
Lemma ForLoop_invalid_state_rejected :
  fits_int 2147483647 = true /\ fits_int 0 = true /\
  IsValid (LoopParams_ 2147483647 0 None None None None) = false /\
  forall fuel,
    (forall log,
       ForLoop fuel (LoopParams_ 2147483647 0 None None None None)
         (@record_index unit) tt [] <> Done log) /\
    ForLoop (S fuel) (LoopParams_ 2147483647 0 None None None None)
      (@record_index unit) tt [] = IllFormed.
Proof.
  do 3 (split; [reflexivity|]).
  intros fuel. split; [|reflexivity].
  intros log. destruct fuel; discriminate.
Qed.

(** C9, as the code has it.  A state whose current index already fails
    the predicate at entry: the callback is never invoked; with any
    positive fuel [ForLoop] returns, the state of the world unchanged for
    every callback and the log of a recording callback unchanged, when the
    class of the state can be instantiated (its next index
    [Modifier()(CurrIdx, ChangeVal)] is an [int] constant), and the call is
    rejected otherwise. *)
Theorem ForLoop_zero_iterations {Args St : Type} (LP : LoopParams)
    (func : Z -> Args -> St -> St) (args : Args) (st : St)
    (log : list Z) (fuel : nat) :
  IsValid LP = false ->
  ForLoop (S fuel) LP func args st =
    (if instantiable LP then Done st else IllFormed) /\
  ForLoop (S fuel) LP record_index args log =
    (if instantiable LP then Done log else IllFormed) /\
  (forall fuel' st', ForLoop fuel' LP func args st = Done st' -> st' = st).
Proof.
  intros Hv. destruct (instantiable LP) eqn:Hinst.
  - split; [now apply ForLoop_invalid|].
    split; [now apply ForLoop_invalid|].
    intros [|fuel'] st'; [discriminate|].
    rewrite ForLoop_invalid by assumption. now intros [= <-].
  - assert (Hnone : GetNext LP = None)
      by (unfold instantiable in Hinst; now destruct (GetNext LP)).
    split; [now apply ForLoop_rejected|].
    split; [now apply ForLoop_rejected|].
    intros [|fuel'] st'; [discriminate|].
    rewrite ForLoop_rejected by assumption. discriminate.
Qed.

Lemma ForLoop_zero_iterations_witness :
  ForLoop 1 (LoopParams_ 7 3 None None None None) (@record_index unit) tt []
  = Done [].
Proof.
  destruct (ForLoop_zero_iterations (LoopParams_ 7 3 None None None None)
              (@record_index unit) tt [] [] 0 eq_refl) as (H & _).
  exact H.
Defined.

(** ** Reset *)

(** C6. Whatever the number [n] of advances, resetting the state reached
    gives a state whose current index is the original start index, with
    the end index, change value, comparator, modifier and start index of
    the original state. *)
Theorem Reset_after_advance (n : nat) (LP LP' : LoopParams) :
  advance n LP = Some LP' ->
  GetCurrIdx (Reset LP') = GetStartIdx LP /\
  GetEndIdx (Reset LP') = GetEndIdx LP /\
  GetChangeVal (Reset LP') = GetChangeVal LP /\
  GetComparator (Reset LP') = GetComparator LP /\
  GetModifier (Reset LP') = GetModifier LP /\
  GetStartIdx (Reset LP') = GetStartIdx LP /\
  Reset LP' = Reset LP.
Proof.
  intros H. apply advance_fields in H.
  destruct H as (He & Hc & Hcmp & Hmod & Hs).
  unfold Reset, GetCurrIdx, GetEndIdx, GetChangeVal, GetComparator,
    GetModifier, GetStartIdx; simpl.
  rewrite He, Hc, Hcmp, Hmod, Hs. repeat split; reflexivity.
Qed.

Lemma Reset_after_advance_witness :
  GetCurrIdx (Reset (MkLoopParams 16 64 2 std.less_equal std.multiplies 1))
  = 1.
Proof.
  apply (Reset_after_advance 4
           (LoopParams_ 1 64 (Some 2) (Some std.less_equal)
              (Some std.multiplies) None)
           (MkLoopParams 16 64 2 std.less_equal std.multiplies 1)).
  reflexivity.
Defined.

(** A result obtained with some fuel is the result with any larger fuel. *)
Lemma ForLoop_at_least {Args St : Type} (func : Z -> Args -> St -> St)
    (args : Args) (N : nat) (LP : LoopParams) (st st' : St) :
  ForLoop N LP func args st = Done st' ->
  forall fuel, (N <= fuel)%nat -> ForLoop fuel LP func args st = Done st'.
Proof.
  intros H fuel Hle. rewrite <- H.
  apply ForLoop_fuel_stable; [assumption | now rewrite H].
Qed.

(** ** Concrete runs of the entry points *)

(** Runs a closed enumeration with [depth] levels and lifts it to any larger
    fuel; a symbolic log is handled through [invoke_each_record]. *)
Ltac run_with depth :=
  apply (@ForLoop_at_least _ _ _ _ depth); [| assumption];
  first [ reflexivity
        | match goal with
          | |- ForLoop _ _ record_index ?a ?l = _ =>
              rewrite <- (invoke_each_record a _ l); reflexivity
          end ].

(** The whole of [main]: nine lines from the functor, twenty from the
    first lambda, seven powers of two. *)
Lemma main_output (fuel : nat) :
  (21 <= fuel)%nat ->
  main fuel [] =
  Done (map (fun i => Line "Functor " (i * 5)) (arith_seq 10 (-1) 9) ++
        map (Line "Lambda ") (arith_seq 1 1 20) ++
        map (Line "Power of 2: ") [1; 2; 4; 8; 16; 32; 64]).
Proof.
  intros Hf.
  set (out1 := map (fun i => Line "Functor " (i * 5)) (arith_seq 10 (-1) 9)).
  set (out2 := map (Line "Lambda ") (arith_seq 1 1 20)).
  set (out3 := map (Line "Power of 2: ") [1; 2; 4; 8; 16; 32; 64]).
  assert (H1 : ForLoopGreaterThan fuel 10 1 None MyFunc 5 [] = Done out1).
  { apply (@ForLoop_at_least _ _ _ _ 21%nat); [|assumption].
    vm_compute. reflexivity. }
  assert (H2 : ForLoopLessThanEqualTo fuel 1 20 None print_lambda tt out1
               = Done (out1 ++ out2)).
  { apply (@ForLoop_at_least _ _ _ _ 21%nat); [|assumption].
    vm_compute. reflexivity. }
  assert (H3 : ForLoop fuel
                 (LoopParams_ 1 64 (Some 2) (Some std.less_equal)
                    (Some std.multiplies) None)
                 print_power "Power of 2: "%string (out1 ++ out2)
               = Done (out1 ++ out2 ++ out3)).
  { apply (@ForLoop_at_least _ _ _ _ 21%nat); [|assumption].
    vm_compute. reflexivity. }
  unfold main. rewrite H1. unfold and_then at 1.
  rewrite H2. unfold and_then. exact H3.
Qed.

(** C8. The advance rule of the state is the one applied: the next index
    is [Modifier()(CurrIdx, ChangeVal)] whatever the modifier, and over
    [1, 64] with less-or-equal and [multiplies<int>] by 2 the callback is
    invoked exactly on 1, 2, 4, 8, 16, 32, 64, in that order (the third
    call of [main]). *)
Theorem ForLoop_doubling {Args St : Type}
    (func : Z -> Args -> St -> St) (args : Args) (st : St) (log : list Z) :
  (forall LP next, GetNext LP = Some next ->
     GetModifier LP (GetCurrIdx LP) (GetChangeVal LP)
     = Some (GetCurrIdx next)) /\
  (forall fuel, (8 <= fuel)%nat ->
     let LP := LoopParams_ 1 64 (Some 2) (Some std.less_equal)
                 (Some std.multiplies) None in
     ForLoop fuel LP func args st =
     Done (invoke_each func args [1; 2; 4; 8; 16; 32; 64] st) /\
     ForLoop fuel LP record_index args log =
     Done (log ++ [1; 2; 4; 8; 16; 32; 64]) /\
     ForLoop fuel LP print_power "Power of 2: "%string [] =
     Done [Line "Power of 2: " 1; Line "Power of 2: " 2;
           Line "Power of 2: " 4; Line "Power of 2: " 8;
           Line "Power of 2: " 16; Line "Power of 2: " 32;
           Line "Power of 2: " 64]).
Proof.
  split.
  - intros LP next H. now apply GetNext_fields in H.
  - intros fuel Hf LP. repeat split; run_with 8%nat.
Qed.

Lemma ForLoop_doubling_witness :
  ForLoop 8
    (LoopParams_ 1 64 (Some 2) (Some std.less_equal) (Some std.multiplies)
       None)
    (@record_index unit) tt [] = Done [1; 2; 4; 8; 16; 32; 64].
Proof.
  destruct (ForLoop_doubling (@record_index unit) tt [] []) as (_ & H).
  destruct (H 8%nat) as (_ & Hlog & _); [lia | exact Hlog].
Defined.

(** ** Arithmetic progressions *)

Lemma steps_to_done (s e c : Z) : 0 < c -> e <= s -> steps_to s e c = 0%nat.
Proof.
  intros Hc Hle. unfold steps_to.
  assert ((e - s + c - 1) / c < 1) by (apply Z.div_lt_upper_bound; lia).
  lia.
Qed.

Lemma steps_to_step (s e c : Z) :
  0 < c -> s < e -> steps_to s e c = S (steps_to (s + c) e c).
Proof.
  intros Hc Hlt. unfold steps_to.
  replace (e - (s + c) + c - 1) with ((e - s + c - 1) + (-1) * c) by ring.
  rewrite Z.div_add by lia.
  assert (1 <= (e - s + c - 1) / c) by (apply Z.div_le_lower_bound; lia).
  lia.
Qed.

(** [steps_to] is the ceiling of [(e - s) / c], cut at zero. *)
Lemma steps_to_ceiling (s e c : Z) :
  0 < c ->
  let q := (e - s + c - 1) / c in
  Z.of_nat (steps_to s e c) = Z.max 0 q /\ (q - 1) * c < e - s <= q * c.
Proof.
  intros Hc q. split.
  - unfold steps_to. fold q. lia.
  - subst q. pose proof (Z.div_mod (e - s + c - 1) c ltac:(lia)) as Hdm.
    pose proof (Z.mod_pos_bound (e - s + c - 1) c Hc) as Hm. nia.
Qed.

Lemma steps_to_zero_inv (s e c : Z) :
  0 < c -> steps_to s e c = 0%nat -> e <= s.
Proof.
  intros Hc H. destruct (Z_lt_le_dec s e) as [Hlt|Hle]; [|assumption].
  rewrite (steps_to_step s e c Hc Hlt) in H. discriminate.
Qed.

Lemma steps_to_succ_inv (s e c : Z) (n : nat) :
  0 < c -> steps_to s e c = S n -> s < e /\ steps_to (s + c) e c = n.
Proof.
  intros Hc H. destruct (Z_lt_le_dec s e) as [Hlt|Hle].
  - split; [assumption|]. rewrite (steps_to_step s e c Hc Hlt) in H.
    now injection H.
  - rewrite (steps_to_done s e c Hc Hle) in H. discriminate.
Qed.

Lemma arith_seq_length (n : nat) : forall s c, length (arith_seq s c n) = n.
Proof. induction n as [|n IH]; intros s c; simpl; auto. Qed.

Lemma arith_seq_nth (n : nat) : forall s c k i,
  nth_error (arith_seq s c n) k = Some i <->
  (k < n)%nat /\ i = s + Z.of_nat k * c.
Proof.
  induction n as [|n IH]; intros s c k i.
  - destruct k; simpl; split; try discriminate; lia.
  - destruct k as [|k]; cbn [nth_error arith_seq].
    + split; [intros [= <-]; split; lia | intros [_ ->]; f_equal; lia].
    + rewrite IH. split; intros [Hk ->]; split; lia.
Qed.

(** The members of [arith_seq s c (steps_to s e c)] are below [e] and the
    progression stops at the first term that is not. *)
Lemma arith_seq_below (n : nat) : forall s e c k i,
  0 < c -> steps_to s e c = n ->
  nth_error (arith_seq s c n) k = Some i -> i < e.
Proof.
  induction n as [|n IH]; intros s e c k i Hc Hn.
  - destruct k; discriminate.
  - destruct (steps_to_succ_inv _ _ _ _ Hc Hn) as [Hlt Hn'].
    destruct k as [|k]; simpl.
    + now intros [= <-].
    + now apply IH.
Qed.

Lemma arith_seq_stops (n : nat) : forall s e c,
  0 < c -> steps_to s e c = n -> e <= s + Z.of_nat n * c.
Proof.
  induction n as [|n IH]; intros s e c Hc Hn.
  - apply steps_to_zero_inv in Hn; lia.
  - destruct (steps_to_succ_inv _ _ _ _ Hc Hn) as [_ Hn'].
    specialize (IH _ _ _ Hc Hn'). lia.
Qed.

Lemma arith_seq_increasing (s c : Z) (n k k' : nat) (i i' : Z) :
  0 < c -> (k < k')%nat ->
  nth_error (arith_seq s c n) k = Some i ->
  nth_error (arith_seq s c n) k' = Some i' -> i < i'.
Proof.
  intros Hc Hk. rewrite !arith_seq_nth. intros [_ ->] [_ ->]. nia.
Qed.

(** ** Ascending enumeration with [plus<int>]

    The comparator is any one that holds exactly below [bound]:
    [less<int>] with [bound = e], [less_equal<int>] with [bound = e + 1].
    The call is accepted when the first and the last next-index computed
    are representable, and then visits the progression. *)
Lemma ForLoop_ascending {Args St : Type} (func : Z -> Args -> St -> St)
    (args : Args) (cmp : Z -> Z -> bool) (e bound c s0 : Z) (n : nat) :
  forall (s : Z) (st : St) (fuel : nat),
  0 < c -> (forall x, cmp x e = (x <? bound)) ->
  steps_to s bound c = n -> (n < fuel)%nat ->
  ForLoop fuel (MkLoopParams s e c cmp std.plus s0) func args st =
  if fits_int (s + c) && fits_int (s + Z.of_nat (S n) * c)
  then Done (invoke_each func args (arith_seq s c n) st)
  else IllFormed.
Proof.
  induction n as [|n IH]; intros s st fuel Hc Hcmp Hn Hf;
    (destruct fuel as [|fuel]; [lia|]).
  - apply steps_to_zero_inv in Hn; [|assumption].
    replace (s + Z.of_nat 1 * c) with (s + c) by lia.
    destruct (fits_int (s + c)) eqn:E; cbn [andb].
    + apply ForLoop_invalid.
      * unfold instantiable. now rewrite GetNext_plus, E.
      * unfold IsValid; cbn. rewrite Hcmp. apply Z.ltb_ge. lia.
    + apply ForLoop_rejected. now rewrite GetNext_plus, E.
  - destruct (steps_to_succ_inv _ _ _ _ Hc Hn) as [Hlt Hn'].
    destruct (fits_int (s + c)) eqn:E; cbn [andb].
    + rewrite (ForLoop_valid func args fuel _
                 (MkLoopParams (s + c) e c cmp std.plus s0)).
      * rewrite (IH (s + c)) by (assumption || lia).
        replace (s + c + Z.of_nat (S n) * c)
          with (s + Z.of_nat (S (S n)) * c) by lia.
        destruct (fits_int (s + Z.of_nat (S (S n)) * c)) eqn:E2.
        -- assert (E3 : fits_int (s + c + c) = true).
           { apply fits_int_iff. apply fits_int_iff in E, E2. nia. }
           rewrite E3. reflexivity.
        -- now rewrite andb_false_r.
      * now rewrite GetNext_plus, E.
      * unfold IsValid; cbn. rewrite Hcmp. apply Z.ltb_lt. lia.
    + apply ForLoop_rejected. now rewrite GetNext_plus, E.
Qed.

Lemma less_below (e x : Z) : std.less x e = (x <? e).
Proof. reflexivity. Qed.

Lemma less_equal_below (e x : Z) : std.less_equal x e = (x <? e + 1).
Proof.
  unfold std.less_equal.
  destruct (Z.leb_spec x e), (Z.ltb_spec x (e + 1)); lia || reflexivity.
Qed.

(** ** Termination of [ForLoopLessThan] *)

(** C10. For every start index [s], end index [e] and change value
    [c > 0], [ForLoopLessThan] stops: with [n = max(0, ceil((e - s) / c))]
    and any fuel above [n] the outcome is never [OutOfFuel]; a call that
    returns has invoked the callback on the [n] indices
    [s, s + c, ..., s + (n - 1) c] and on nothing else (a logging callback
    has logged at most [n] entries), and the call does return whenever the
    indices computed are representable. *)
Theorem ForLoopLessThan_terminates {Args St : Type}
    (func : Z -> Args -> St -> St) (args : Args) (st : St) (s e c : Z) :
  0 < c ->
  let q := (e - s + c - 1) / c in
  let n := steps_to s e c in
  (Z.of_nat n = Z.max 0 q /\ (q - 1) * c < e - s <= q * c) /\
  forall fuel, (n < fuel)%nat ->
    ForLoopLessThan fuel s e (Some c) func args st <> OutOfFuel /\
    (forall st',
       ForLoopLessThan fuel s e (Some c) func args st = Done st' ->
       st' = invoke_each func args (arith_seq s c n) st) /\
    length (arith_seq s c n) = n /\
    (forall log,
       ForLoopLessThan fuel s e (Some c) record_index args [] = Done log ->
       (length log <= n)%nat) /\
    (fits_int (s + c) = true -> fits_int (s + Z.of_nat (S n) * c) = true ->
     ForLoopLessThan fuel s e (Some c) func args st =
     Done (invoke_each func args (arith_seq s c n) st)).
Proof.
  intros Hc q n. split; [exact (steps_to_ceiling s e c Hc)|].
  intros fuel Hf. unfold ForLoopLessThan.
  rewrite !(ForLoop_ascending _ _ std.less e e c s n s _ fuel Hc (less_below e)
              eq_refl Hf).
  destruct (fits_int (s + c) && fits_int (s + Z.of_nat (S n) * c)) eqn:E.
  - repeat split; try discriminate.
    + now intros st' [= <-].
    + apply arith_seq_length.
    + intros log [= <-]. rewrite invoke_each_record. simpl.
      rewrite arith_seq_length. lia.
  - repeat split; try discriminate.
    + apply arith_seq_length.
    + intros E1 E2. rewrite E1, E2 in E. discriminate.
Qed.

Lemma ForLoopLessThan_terminates_witness :
  ForLoopLessThan 4 1 10 (Some 3) (@record_index unit) tt [] = Done [1; 4; 7].
Proof.
  destruct (ForLoopLessThan_terminates (@record_index unit) tt [] 1 10 3
              eq_refl) as (_ & H).
  destruct (H 4%nat) as (_ & _ & _ & _ & Hrun).
  - vm_compute. lia.
  - exact (Hrun eq_refl eq_refl).
Defined.

(** ** Ascending entry points *)

(** C3, counterexample.  From 2147483646 to 2147483647 with step 2 the
    less-than enumeration should visit 2147483646 alone; the next index
    2147483648 is not an [int], the instantiation is rejected and nothing
    is invoked, whatever the fuel. *)
Lemma ForLoopLessThan_int_overflow :
  fits_int 2147483646 = true /\ fits_int 2147483647 = true /\
  fits_int 2 = true /\ 2147483646 <= 2147483647 /\ 0 < 2 /\
  forall fuel,
    ForLoopLessThan fuel 2147483646 2147483647 (Some 2)
      (@record_index unit) tt [] <> Done [2147483646] /\
    ForLoopLessThan (S fuel) 2147483646 2147483647 (Some 2)
      (@record_index unit) tt [] = IllFormed.
Proof.
  do 3 (split; [reflexivity|]). split; [lia|]. split; [lia|].
  intros fuel. split; [destruct fuel; discriminate | reflexivity].
Qed.

(** C3, as the code has it.  For [s <= e] and a positive step [c], let [n]
    be the number of terms of [s, s + c, ...] below [e] (not above [e] for
    the inclusive variant).  When [s + c] and [s + (n + 1) c] are
    representable as [int] the callback is invoked exactly on those [n]
    terms: the k-th is [s + k c], they increase strictly, all are [< e]
    (resp. [<= e]) and the term after the last is not.  Otherwise the
    instantiation is rejected.  From 1 to 10 with step 1 and less-than the
    indices are 1, ..., 9: nine invocations. *)
Theorem ForLoopLessThan_ascending {Args St : Type}
    (func : Z -> Args -> St -> St) (args : Args) (st : St) (s e c : Z) :
  s <= e -> 0 < c ->
  let n := steps_to s e c in
  let m := steps_to s (e + 1) c in
  (forall fuel, (n < fuel)%nat ->
     ForLoopLessThan fuel s e (Some c) func args st =
     if fits_int (s + c) && fits_int (s + Z.of_nat (S n) * c)
     then Done (invoke_each func args (arith_seq s c n) st)
     else IllFormed) /\
  (forall fuel, (m < fuel)%nat ->
     ForLoopLessThanEqualTo fuel s e (Some c) func args st =
     if fits_int (s + c) && fits_int (s + Z.of_nat (S m) * c)
     then Done (invoke_each func args (arith_seq s c m) st)
     else IllFormed) /\
  (forall k i, nth_error (arith_seq s c n) k = Some i ->
     i = s + Z.of_nat k * c /\ i < e) /\
  e <= s + Z.of_nat n * c /\
  (forall k i, nth_error (arith_seq s c m) k = Some i ->
     i = s + Z.of_nat k * c /\ i <= e) /\
  e < s + Z.of_nat m * c /\
  (forall k k' i i', (k < k')%nat ->
     nth_error (arith_seq s c m) k = Some i ->
     nth_error (arith_seq s c m) k' = Some i' -> i < i') /\
  (forall k k' i i', (k < k')%nat ->
     nth_error (arith_seq s c n) k = Some i ->
     nth_error (arith_seq s c n) k' = Some i' -> i < i') /\
  (forall fuel, (10 <= fuel)%nat ->
     ForLoopLessThan fuel 1 10 (Some 1) func args st =
     Done (invoke_each func args [1; 2; 3; 4; 5; 6; 7; 8; 9] st)) /\
  length (arith_seq 1 1 (steps_to 1 10 1)) = 9%nat.
Proof.
  intros Hse Hc n m.
  split; [|split; [|split; [|split; [|split; [|split; [|split; [|split;
    [|split]]]]]]]].
  - intros fuel Hf.
    exact (ForLoop_ascending func args std.less e e c s n s st fuel Hc
             (less_below e) eq_refl Hf).
  - intros fuel Hf.
    exact (ForLoop_ascending func args std.less_equal e (e + 1) c s m s st
             fuel Hc (less_equal_below e) eq_refl Hf).
  - intros k i Hk. split.
    + now apply arith_seq_nth in Hk.
    + now apply (arith_seq_below n s e c k i).
  - now apply arith_seq_stops.
  - intros k i Hk. split.
    + now apply arith_seq_nth in Hk.
    + assert (i < e + 1) by now apply (arith_seq_below m s (e + 1) c k i).
      lia.
  - assert (e + 1 <= s + Z.of_nat m * c) by now apply arith_seq_stops.
    lia.
  - intros k k' i i'. now apply arith_seq_increasing.
  - intros k k' i i'. now apply arith_seq_increasing.
  - intros fuel Hf. unfold ForLoopLessThan. run_with 10%nat.
  - reflexivity.
Qed.

Lemma ForLoopLessThan_ascending_witness :
  ForLoopLessThanEqualTo 5 0 10 (Some 4) (@record_index unit) tt [] =
  Done [0; 4; 8].
Proof.
  destruct (ForLoopLessThan_ascending (@record_index unit) tt [] 0 10 4)
    as (_ & H & _).
  - lia.
  - lia.
  - apply (H 5%nat). vm_compute. lia.
Defined.

(** ** Start index equal to end index *)

(** C5, counterexample.  With start and end index 2147483647 the equal-to
    entry point should invoke the callback once, on 2147483647; the class
    of that state needs the next index 2147483648, the instantiation is
    rejected and nothing is invoked. *)
Lemma ForLoopEqualTo_int_overflow :
  fits_int 2147483647 = true /\
  forall fuel,
    ForLoopEqualTo fuel 2147483647 2147483647 None
      (@record_index unit) tt [] <> Done [2147483647] /\
    ForLoopEqualTo (S fuel) 2147483647 2147483647 None
      (@record_index unit) tt [] = IllFormed.
Proof.
  split; [reflexivity|].
  intros fuel. split; [destruct fuel; discriminate | reflexivity].
Qed.

Lemma equal_to_next (s c : Z) : c <> 0 -> std.equal_to (s + c) s = false.
Proof. intros Hc. apply Z.eqb_neq. lia. Qed.

(** C5, as the code has it.  With start index and end index both [s] and
    step [c]: the less-than and greater-than entry points are accepted
    when [s + c] is an [int] and then return without any invocation; the
    equal-to entry point, for a non-zero step, is accepted when [s + c] and
    [s + 2 c] are [int]s and then invokes the callback exactly once, on
    [s].  With the default steps this is [s + 1] (resp. [s - 1]) and
    [s + 2] representable. *)
Theorem same_start_and_end {Args St : Type}
    (func : Z -> Args -> St -> St) (args : Args) (st : St)
    (s c : Z) (fuel : nat) :
  ForLoopLessThan (S fuel) s s (Some c) func args st =
    (if fits_int (s + c) then Done st else IllFormed) /\
  ForLoopGreaterThan (S fuel) s s (Some c) func args st =
    (if fits_int (s + c) then Done st else IllFormed) /\
  (c <> 0 ->
   ForLoopEqualTo (S (S fuel)) s s (Some c) func args st =
     (if fits_int (s + c) && fits_int (s + c + c)
      then Done (invoke_each func args [s] st) else IllFormed)) /\
  (fits_int (s + 1) = true ->
   ForLoopLessThan (S fuel) s s None func args st = Done st) /\
  (fits_int (s - 1) = true ->
   ForLoopGreaterThan (S fuel) s s None func args st = Done st) /\
  (fits_int (s + 1) = true -> fits_int (s + 2) = true ->
   ForLoopEqualTo (S (S fuel)) s s None func args st =
     Done (invoke_each func args [s] st)).
Proof.
  assert (Hlt : forall d,
    ForLoop (S fuel) (MkLoopParams s s d std.less std.plus s) func args st =
    (if fits_int (s + d) then Done st else IllFormed)).
  { intros d. destruct (fits_int (s + d)) eqn:E.
    - apply ForLoop_invalid.
      + unfold instantiable. now rewrite GetNext_plus, E.
      + apply Z.ltb_irrefl.
    - apply ForLoop_rejected. now rewrite GetNext_plus, E. }
  assert (Hgt : forall d,
    ForLoop (S fuel) (MkLoopParams s s d std.greater std.plus s) func args st
    = (if fits_int (s + d) then Done st else IllFormed)).
  { intros d. destruct (fits_int (s + d)) eqn:E.
    - apply ForLoop_invalid.
      + unfold instantiable. now rewrite GetNext_plus, E.
      + unfold IsValid, std.greater; cbn. rewrite Z.gtb_ltb.
        apply Z.ltb_irrefl.
    - apply ForLoop_rejected. now rewrite GetNext_plus, E. }
  assert (Heq : forall d, d <> 0 ->
    ForLoop (S (S fuel)) (MkLoopParams s s d std.equal_to std.plus s)
      func args st =
    (if fits_int (s + d) && fits_int (s + d + d)
     then Done (invoke_each func args [s] st) else IllFormed)).
  { intros d Hd. destruct (fits_int (s + d)) eqn:E; cbn [andb].
    - rewrite (ForLoop_valid func args (S fuel) _
                 (MkLoopParams (s + d) s d std.equal_to std.plus s)).
      + destruct (fits_int (s + d + d)) eqn:E2.
        * apply ForLoop_invalid.
          -- unfold instantiable. now rewrite GetNext_plus, E2.
          -- now apply equal_to_next.
        * apply ForLoop_rejected. now rewrite GetNext_plus, E2.
      + now rewrite GetNext_plus, E.
      + apply Z.eqb_refl.
    - apply ForLoop_rejected. now rewrite GetNext_plus, E. }
  unfold ForLoopLessThan, ForLoopGreaterThan, ForLoopEqualTo.
  split; [apply Hlt|]. split; [apply Hgt|]. split; [apply Heq|].
  split; [intros E; rewrite Hlt; now rewrite E|].
  split; [intros E; rewrite Hgt; change (s + -1) with (s - 1); now rewrite E|].
  intros E1 E2. rewrite Heq by lia.
  replace (s + 1 + 1) with (s + 2) by lia. now rewrite E1, E2.
Qed.

Lemma same_start_and_end_witness :
  ForLoopEqualTo 2 5 5 None (@record_index unit) tt [] = Done [5].
Proof.
  destruct (same_start_and_end (@record_index unit) tt [] 5 1 0)
    as (_ & _ & _ & _ & _ & H).
  exact (H eq_refl eq_refl).
Defined.

(** ** Comparators that hold above a bound *)

Lemma greater_above (e x : Z) : std.greater x e = (e <? x).
Proof. unfold std.greater. apply Z.gtb_ltb. Qed.

Lemma greater_equal_above (e x : Z) : std.greater_equal x e = (e - 1 <? x).
Proof.
  unfold std.greater_equal. rewrite Z.geb_leb.
  destruct (Z.leb_spec e x), (Z.ltb_spec (e - 1) x); lia || reflexivity.
Qed.

(** ** Descending enumeration with [plus<int>] *)

Lemma steps_down_zero_inv (s bound c : Z) :
  c < 0 -> steps_to bound s (- c) = 0%nat -> s <= bound.
Proof. intros Hc H. apply (steps_to_zero_inv bound s (- c)); [lia | exact H]. Qed.

Lemma steps_down_succ_inv (s bound c : Z) (n : nat) :
  c < 0 -> steps_to bound s (- c) = S n ->
  bound < s /\ steps_to bound (s + c) (- c) = n.
Proof.
  intros Hc H.
  destruct (steps_to_succ_inv bound s (- c) n ltac:(lia) H) as [Hlt Hn].
  split; [assumption|]. rewrite <- Hn. unfold steps_to.
  do 3 f_equal. ring.
Qed.

(** The comparator is any one that holds exactly above [bound]:
    [greater<int>] with [bound = e], [greater_equal<int>] with
    [bound = e - 1]. *)
Lemma ForLoop_descending {Args St : Type} (func : Z -> Args -> St -> St)
    (args : Args) (cmp : Z -> Z -> bool) (e bound c s0 : Z) (n : nat) :
  forall (s : Z) (st : St) (fuel : nat),
  c < 0 -> (forall x, cmp x e = (bound <? x)) ->
  steps_to bound s (- c) = n -> (n < fuel)%nat ->
  ForLoop fuel (MkLoopParams s e c cmp std.plus s0) func args st =
  if fits_int (s + c) && fits_int (s + Z.of_nat (S n) * c)
  then Done (invoke_each func args (arith_seq s c n) st)
  else IllFormed.
Proof.
  induction n as [|n IH]; intros s st fuel Hc Hcmp Hn Hf;
    (destruct fuel as [|fuel]; [lia|]).
  - apply steps_down_zero_inv in Hn; [|assumption].
    replace (s + Z.of_nat 1 * c) with (s + c) by lia.
    destruct (fits_int (s + c)) eqn:E; cbn [andb].
    + apply ForLoop_invalid.
      * unfold instantiable. now rewrite GetNext_plus, E.
      * unfold IsValid; cbn. rewrite Hcmp. apply Z.ltb_ge. lia.
    + apply ForLoop_rejected. now rewrite GetNext_plus, E.
  - destruct (steps_down_succ_inv _ _ _ _ Hc Hn) as [Hlt Hn'].
    destruct (fits_int (s + c)) eqn:E; cbn [andb].
    + rewrite (ForLoop_valid func args fuel _
                 (MkLoopParams (s + c) e c cmp std.plus s0)).
      * rewrite (IH (s + c)) by (assumption || lia).
        replace (s + c + Z.of_nat (S n) * c)
          with (s + Z.of_nat (S (S n)) * c) by lia.
        destruct (fits_int (s + Z.of_nat (S (S n)) * c)) eqn:E2.
        -- assert (E3 : fits_int (s + c + c) = true).
           { apply fits_int_iff. apply fits_int_iff in E, E2. nia. }
           rewrite E3. reflexivity.
        -- now rewrite andb_false_r.
      * now rewrite GetNext_plus, E.
      * unfold IsValid; cbn. rewrite Hcmp. apply Z.ltb_lt. lia.
    + apply ForLoop_rejected. now rewrite GetNext_plus, E.
Qed.




(** ** The steps taken when none is given *)

(** One or two levels of the equal-to comparator, for a non-zero step. *)
Lemma ForLoop_equal_to {Args St : Type} (func : Z -> Args -> St -> St)
    (args : Args) (s e c start : Z) (st : St) (fuel : nat) :
  c <> 0 ->
  ForLoop (S (S fuel)) (MkLoopParams s e c std.equal_to std.plus start)
    func args st =
  if s =? e
  then (if fits_int (s + c) && fits_int (s + c + c)
        then Done (func s args st) else IllFormed)
  else (if fits_int (s + c) then Done st else IllFormed).
Proof.
  intros Hc. destruct (Z.eqb_spec s e) as [<-|Hse].
  - destruct (fits_int (s + c)) eqn:E; cbn [andb].
    + rewrite (ForLoop_valid func args (S fuel) _
                 (MkLoopParams (s + c) s c std.equal_to std.plus start)).
      * destruct (fits_int (s + c + c)) eqn:E2.
        -- apply ForLoop_invalid.
           ++ unfold instantiable. now rewrite GetNext_plus, E2.
           ++ now apply equal_to_next.
        -- apply ForLoop_rejected. now rewrite GetNext_plus, E2.
      * now rewrite GetNext_plus, E.
      * apply Z.eqb_refl.
    + apply ForLoop_rejected. now rewrite GetNext_plus, E.
  - destruct (fits_int (s + c)) eqn:E.
    + apply ForLoop_invalid.
      * unfold instantiable. now rewrite GetNext_plus, E.
      * now apply Z.eqb_neq.
    + apply ForLoop_rejected. now rewrite GetNext_plus, E.
Qed.

(** C7. With the step omitted the greater-than and greater-or-equal entry
    points step by -1 and the other three by +1: for every start index [s]
    and end index [e] the call without a step visits [s, s - 1, ...] while
    [> e] (resp. [>= e]), [s, s + 1, ...] while [< e] (resp. [<= e]), and
    for equal-to the index [s] alone when [s = e]; the indices it needs
    beyond them are [s - 1], resp. [s + 1] (and [s + 2] for equal-to with
    [s = e]), and the call is rejected when one of the indices needed is
    not an [int].  From 10 down to 1 with step -1 and greater-than the
    callback is invoked on 10, 9, ..., 2: nine invocations; the first call
    of [main] is this run with the step omitted. *)
Theorem descending_defaults_and_run {Args St : Type}
    (func : Z -> Args -> St -> St) (args : Args) (st : St) (log : list Z)
    (s e : Z) :
  (forall fuel, (steps_to e s 1 < fuel)%nat ->
     ForLoopGreaterThan fuel s e None func args st =
     if fits_int (s + -1) &&
        fits_int (s + Z.of_nat (S (steps_to e s 1)) * -1)
     then Done (invoke_each func args
                  (arith_seq s (-1) (steps_to e s 1)) st)
     else IllFormed) /\
  (forall fuel, (steps_to (e - 1) s 1 < fuel)%nat ->
     ForLoopGreaterThanEqualTo fuel s e None func args st =
     if fits_int (s + -1) &&
        fits_int (s + Z.of_nat (S (steps_to (e - 1) s 1)) * -1)
     then Done (invoke_each func args
                  (arith_seq s (-1) (steps_to (e - 1) s 1)) st)
     else IllFormed) /\
  (forall fuel, (steps_to s e 1 < fuel)%nat ->
     ForLoopLessThan fuel s e None func args st =
     if fits_int (s + 1) && fits_int (s + Z.of_nat (S (steps_to s e 1)) * 1)
     then Done (invoke_each func args (arith_seq s 1 (steps_to s e 1)) st)
     else IllFormed) /\
  (forall fuel, (steps_to s (e + 1) 1 < fuel)%nat ->
     ForLoopLessThanEqualTo fuel s e None func args st =
     if fits_int (s + 1) &&
        fits_int (s + Z.of_nat (S (steps_to s (e + 1) 1)) * 1)
     then Done (invoke_each func args
                  (arith_seq s 1 (steps_to s (e + 1) 1)) st)
     else IllFormed) /\
  (forall fuel,
     ForLoopEqualTo (S (S fuel)) s e None func args st =
     if s =? e
     then (if fits_int (s + 1) && fits_int (s + 1 + 1)
           then Done (func s args st) else IllFormed)
     else (if fits_int (s + 1) then Done st else IllFormed)) /\
  (forall fuel, (10 <= fuel)%nat ->
     ForLoopGreaterThan fuel 10 1 (Some (-1)) func args st =
     Done (invoke_each func args [10; 9; 8; 7; 6; 5; 4; 3; 2] st) /\
     ForLoopGreaterThan fuel 10 1 (Some (-1)) record_index args log =
     Done (log ++ [10; 9; 8; 7; 6; 5; 4; 3; 2]) /\
     length (arith_seq 10 (-1) (steps_to 1 10 1)) = 9%nat /\
     ForLoopGreaterThan fuel 10 1 None MyFunc 5 [] =
     Done [Line "Functor " 50; Line "Functor " 45; Line "Functor " 40;
           Line "Functor " 35; Line "Functor " 30; Line "Functor " 25;
           Line "Functor " 20; Line "Functor " 15; Line "Functor " 10]).
Proof.
  split; [|split; [|split; [|split; [|split]]]].
  - intros fuel Hf.
    exact (ForLoop_descending func args std.greater e e (-1) s
             (steps_to e s 1) s st fuel eq_refl (greater_above e) eq_refl Hf).
  - intros fuel Hf.
    exact (ForLoop_descending func args std.greater_equal e (e - 1) (-1) s
             (steps_to (e - 1) s 1) s st fuel eq_refl (greater_equal_above e)
             eq_refl Hf).
  - intros fuel Hf.
    exact (ForLoop_ascending func args std.less e e 1 s
             (steps_to s e 1) s st fuel eq_refl (less_below e) eq_refl Hf).
  - intros fuel Hf.
    exact (ForLoop_ascending func args std.less_equal e (e + 1) 1 s
             (steps_to s (e + 1) 1) s st fuel eq_refl (less_equal_below e)
             eq_refl Hf).
  - intros fuel. unfold ForLoopEqualTo. apply ForLoop_equal_to. discriminate.
  - intros fuel Hf. unfold ForLoopGreaterThan.
    split; [run_with 10%nat|]. split; [run_with 10%nat|].
    split; [reflexivity | run_with 10%nat].
Qed.

Lemma descending_defaults_and_run_witness :
  ForLoopGreaterThanEqualTo 5 3 1 None (@record_index unit) tt [] =
  Done [3; 2; 1].
Proof.
  destruct (descending_defaults_and_run (@record_index unit) tt [] [] 3 1)
    as (_ & H & _).
  apply (H 5%nat). vm_compute. lia.
Defined.

(** ** Completed enumerations *)

Lemma enumerates_instantiable (LP : LoopParams) (idxs : list Z) :
  enumerates LP idxs -> instantiable LP = true.
Proof.
  intros [LP' Hi _ | LP' next idxs' Hnext _ _]; [assumption|].
  unfold instantiable. now rewrite Hnext.
Qed.

Lemma enumerates_valid (LP : LoopParams) (idxs : list Z) :
  enumerates LP idxs -> idxs <> [] -> IsValid LP = true.
Proof.
  intros [LP' _ _ | LP' next idxs' _ Hv _]; [congruence | auto].
Qed.

Lemma enumerates_functional (LP : LoopParams) (idxs : list Z) :
  enumerates LP idxs -> forall idxs', enumerates LP idxs' -> idxs = idxs'.
Proof.
  induction 1 as [LP Hi Hv | LP next idxs Hnext Hv _ IH];
    intros idxs' H'; inversion H' as [? Hi' Hv' | ? next' ? Hnext' Hv' Hrest];
    subst; try congruence.
  f_equal. apply IH. rewrite Hnext in Hnext'. now injection Hnext' as ->.
Qed.

(** An enumeration that completes is a run of [advance]. *)
Lemma enumerates_advance (LP : LoopParams) (idxs : list Z) :
  enumerates LP idxs ->
  idxs = visited (length idxs) LP /\
  exists last, advance (length idxs) LP = Some last /\
               IsValid last = false /\ instantiable last = true.
Proof.
  induction 1 as [LP Hi Hv | LP next idxs Hnext Hv _ [IHv (last & IHa & IHl)]].
  - split; [reflexivity|]. exists LP. auto.
  - simpl. rewrite Hnext. split; [now f_equal|]. now exists last.
Qed.

Lemma ForLoop_enumerates_list {Args St : Type}
    (func : Z -> Args -> St -> St) (args : Args)
    (LP : LoopParams) (idxs : list Z) :
  enumerates LP idxs ->
  forall (st : St) (fuel : nat), (length idxs < fuel)%nat ->
  ForLoop fuel LP func args st = Done (invoke_each func args idxs st).
Proof.
  induction 1 as [LP Hi Hv | LP next idxs Hnext Hv _ IH];
    intros st fuel Hf; (destruct fuel as [|fuel]; [simpl in Hf; lia|]).
  - now apply ForLoop_invalid.
  - rewrite (ForLoop_valid func args fuel LP next st Hnext Hv).
    rewrite invoke_each_cons. apply IH. simpl in Hf. lia.
Qed.

(** ** One level of [NestedForLoop_2] *)

Section NestedFacts.
Context {Args St : Type}.
Variable func : Z -> Z -> Args -> St -> St.
Variable args : Args.

Lemma Nested_outer_invalid (fuel : nat) (p q : LoopParams) (st : St) :
  instantiable p = true -> instantiable q = true -> IsValid p = false ->
  NestedForLoop_2 (S fuel) p q func args st = Done st.
Proof.
  unfold instantiable. simpl.
  destruct (GetNext p); [|discriminate].
  destruct (GetNext q); [|discriminate].
  now intros _ _ ->.
Qed.

Lemma Nested_no_overload (fuel : nat) (p q : LoopParams) (st : St) :
  IsValid p = true -> IsValid q = false ->
  NestedForLoop_2 (S fuel) p q func args st = IllFormed.
Proof.
  simpl. intros -> ->.
  destruct (GetNext p); [|reflexivity].
  destruct (GetNext q); reflexivity.
Qed.

Lemma Nested_both_valid (fuel : nat) (p p_next q : LoopParams) (st : St) :
  GetNext p = Some p_next -> instantiable q = true ->
  IsValid p = true -> IsValid q = true ->
  NestedForLoop_2 (S fuel) p q func args st =
  (st' <- ForLoop fuel q
            (fun i (pack : Z * Args) => func i (fst pack) (snd pack))
            (GetCurrIdx p, args) st ;;
   NestedForLoop_2 fuel p_next (Reset q) func args st').
Proof.
  unfold instantiable. simpl. intros ->.
  destruct (GetNext q); [|discriminate].
  now intros _ -> ->.
Qed.

Lemma Nested_fuel_stable (fuel : nat) :
  forall (p q : LoopParams) (st : St) (fuel' : nat),
  (fuel <= fuel')%nat ->
  NestedForLoop_2 fuel p q func args st <> OutOfFuel ->
  NestedForLoop_2 fuel' p q func args st =
  NestedForLoop_2 fuel p q func args st.
Proof.
  induction fuel as [|fuel IH]; intros p q st fuel' Hle Hne.
  - now contradiction Hne.
  - destruct fuel' as [|fuel']; [lia|].
    simpl in *. destruct (GetNext p) as [p_next|]; [|reflexivity].
    destruct (GetNext q) as [q_next|]; [|reflexivity].
    destruct (IsValid p); [|reflexivity].
    destruct (IsValid q); [|reflexivity]. simpl in *.
    rewrite (ForLoop_fuel_stable _ _ fuel _ _ fuel') by
      (lia || (intros E; rewrite E in Hne; now apply Hne)).
    destruct (ForLoop fuel q _ _ st) as [st'| |]; simpl in *;
      [|reflexivity|reflexivity].
    apply IH; [lia | assumption].
Qed.

Lemma invoke_pairs_app (l1 l2 : list (Z * Z)) (st : St) :
  invoke_pairs func args (l1 ++ l2) st =
  invoke_pairs func args l2 (invoke_pairs func args l1 st).
Proof. unfold invoke_pairs. apply fold_left_app. Qed.

(** One inner pass: the outer index travels in front of the pack. *)
Lemma invoke_each_pack (o : Z) (idxs : list Z) : forall st : St,
  invoke_each (fun i (pack : Z * Args) => func i (fst pack) (snd pack))
    (o, args) idxs st =
  invoke_pairs func args (map (fun i => (i, o)) idxs) st.
Proof.
  induction idxs as [|i idxs IH]; intros st; [reflexivity|].
  unfold invoke_each, invoke_pairs in *. simpl. apply IH.
Qed.

(** The passes over a state that sits at its start index. *)
Lemma Nested_enumerates_reset (p : LoopParams) (outs : list Z) :
  enumerates p outs ->
  forall (q : LoopParams) (ins : list Z) (st : St) (fuel : nat),
  Reset q = q -> enumerates q ins -> (outs <> [] -> ins <> []) ->
  (length outs + length ins < fuel)%nat ->
  NestedForLoop_2 fuel p q func args st =
  Done (invoke_pairs func args (inner_fastest ins outs) st).
Proof.
  induction 1 as [p Hi Hv | p p_next outs Hnext Hv _ IH];
    intros q ins st fuel Hq Hins Hne Hf;
    (destruct fuel as [|fuel]; [lia|]).
  - apply Nested_outer_invalid; auto.
    now apply enumerates_instantiable with ins.
  - assert (ins <> []) as Hne' by (apply Hne; discriminate).
    rewrite (Nested_both_valid fuel p p_next q st Hnext
               (enumerates_instantiable _ _ Hins) Hv
               (enumerates_valid _ _ Hins Hne')).
    rewrite (ForLoop_enumerates_list _ _ q ins Hins) by (simpl in Hf; lia).
    cbn [and_then]. rewrite Hq, invoke_each_pack.
    rewrite (IH q ins) by (auto; simpl in Hf; lia).
    unfold inner_fastest. cbn [flat_map].
    now rewrite invoke_pairs_app.
Qed.

End NestedFacts.

Lemma Reset_idempotent (q : LoopParams) : Reset (Reset q) = Reset q.
Proof. reflexivity. Qed.

Lemma Reset_at_start (q : LoopParams) : CurrIdx q = StartIdx q -> Reset q = q.
Proof. destruct q; unfold Reset; simpl. now intros ->. Qed.

Lemma invoke_pairs_record {Args : Type} (args : Args)
    (prs log : list (Z * Z)) :
  invoke_pairs record_pair args prs log = log ++ prs.
Proof.
  revert log. induction prs as [|[i o] prs IH]; intros log.
  - now rewrite app_nil_r.
  - unfold invoke_pairs in *. simpl. rewrite IH. unfold record_pair.
    now rewrite <- app_assoc.
Qed.

Lemma Nested_at_least {Args St : Type} (func : Z -> Z -> Args -> St -> St)
    (args : Args) (N : nat) (p q : LoopParams) (st st' : St) :
  NestedForLoop_2 N p q func args st = Done st' ->
  forall fuel, (N <= fuel)%nat ->
  NestedForLoop_2 fuel p q func args st = Done st'.
Proof.
  intros H fuel Hle. rewrite <- H.
  apply Nested_fuel_stable; [assumption | now rewrite H].
Qed.

(** ** Nested enumeration *)

(** C2, counterexample.  Outer range [0,2) step 1; the inner state has
    start index 0, end index 3 and is passed at current index 1
    ([LoopParams<1, 3, 1, less<int>, plus<int>, 0>]).  Restarting from the
    start index on every outer index would visit
    (0,0),(1,0),(2,0),(0,1),(1,1),(2,1); the first pass runs on the state
    as passed and (0,0) is never visited. *)
Lemma NestedForLoop_2_first_pass_not_reset :
  IsValid (LoopParams_ 0 2 None None None None) = true /\
  IsValid (LoopParams_ 1 3 None None None (Some 0)) = true /\
  enumerates (LoopParams_ 0 2 None None None None) [0; 1] /\
  enumerates (Reset (LoopParams_ 1 3 None None None (Some 0))) [0; 1; 2] /\
  (forall fuel, (6 <= fuel)%nat ->
     NestedForLoop_2 fuel (LoopParams_ 0 2 None None None None)
       (LoopParams_ 1 3 None None None (Some 0)) (@record_pair unit) tt []
     = Done [(1, 0); (2, 0); (0, 1); (1, 1); (2, 1)]) /\
  (forall fuel,
     NestedForLoop_2 fuel (LoopParams_ 0 2 None None None None)
       (LoopParams_ 1 3 None None None (Some 0)) (@record_pair unit) tt []
     <> Done (inner_fastest [0; 1; 2] [0; 1])).
Proof.
  assert (Hrun : forall fuel, (6 <= fuel)%nat ->
     NestedForLoop_2 fuel (LoopParams_ 0 2 None None None None)
       (LoopParams_ 1 3 None None None (Some 0)) (@record_pair unit) tt []
     = Done [(1, 0); (2, 0); (0, 1); (1, 1); (2, 1)]).
  { intros fuel Hf. now apply (@Nested_at_least _ _ _ _ 6%nat). }
  repeat split; try assumption.
  - apply (enumerates_step (MkLoopParams 0 2 1 std.less std.plus 0)
             (MkLoopParams 1 2 1 std.less std.plus 0)); try reflexivity.
    apply (enumerates_step (MkLoopParams 1 2 1 std.less std.plus 0)
             (MkLoopParams 2 2 1 std.less std.plus 0)); try reflexivity.
    now apply enumerates_stop.
  - apply (enumerates_step (MkLoopParams 0 3 1 std.less std.plus 0)
             (MkLoopParams 1 3 1 std.less std.plus 0)); try reflexivity.
    apply (enumerates_step (MkLoopParams 1 3 1 std.less std.plus 0)
             (MkLoopParams 2 3 1 std.less std.plus 0)); try reflexivity.
    apply (enumerates_step (MkLoopParams 2 3 1 std.less std.plus 0)
             (MkLoopParams 3 3 1 std.less std.plus 0)); try reflexivity.
    now apply enumerates_stop.
  - intros fuel. destruct (Nat.le_gt_cases 6 fuel) as [Hf|Hf].
    + rewrite (Hrun fuel Hf). discriminate.
    + do 6 (destruct fuel as [|fuel]; [discriminate|]). lia.
Qed.

Lemma inner_fastest_cons (ins outs : list Z) (o : Z) :
  inner_fastest ins (o :: outs) =
  map (fun i => (i, o)) ins ++ inner_fastest ins outs.
Proof. reflexivity. Qed.

Lemma enumerates_0_2 : enumerates (LoopParams_ 0 2 None None None None) [0; 1].
Proof.
  apply (enumerates_step (MkLoopParams 0 2 1 std.less std.plus 0)
           (MkLoopParams 1 2 1 std.less std.plus 0)); try reflexivity.
  apply (enumerates_step (MkLoopParams 1 2 1 std.less std.plus 0)
           (MkLoopParams 2 2 1 std.less std.plus 0)); try reflexivity.
  now apply enumerates_stop.
Defined.

Lemma enumerates_0_3 :
  enumerates (LoopParams_ 0 3 None None None None) [0; 1; 2].
Proof.
  apply (enumerates_step (MkLoopParams 0 3 1 std.less std.plus 0)
           (MkLoopParams 1 3 1 std.less std.plus 0)); try reflexivity.
  apply (enumerates_step (MkLoopParams 1 3 1 std.less std.plus 0)
           (MkLoopParams 2 3 1 std.less std.plus 0)); try reflexivity.
  apply (enumerates_step (MkLoopParams 2 3 1 std.less std.plus 0)
           (MkLoopParams 3 3 1 std.less std.plus 0)); try reflexivity.
  now apply enumerates_stop.
Defined.

(** C2, as the code has it.  Let the outer state be valid and let its
    enumeration complete over the outer indices [o :: outs] (every state
    it reaches can be instantiated, up to the first one that fails the
    predicate).  Let the enumeration of the inner state, from its current
    index as passed, complete over [ins0], not empty; let the class of the
    reset inner state be instantiable; and, when there is a second outer
    index, let the enumeration of the reset inner state complete over
    [ins], not empty.  Then [NestedForLoop_2] runs the first inner pass
    from the inner state's current index and every later pass from its
    start index, through [Reset]; each pass is completed before the outer
    index advances, and the callback receives the inner index, then the
    outer index, then the extra arguments.  When the inner state is passed
    at its start index all passes are the same and the pairs are the inner
    indices paired with each outer index, inner fastest.  For outer [0,2)
    and inner [0,3), both with step 1, the pairs are
    (0,0),(1,0),(2,0),(0,1),(1,1),(2,1). *)
Theorem NestedForLoop_2_inner_fastest {Args St : Type}
    (func : Z -> Z -> Args -> St -> St) (args : Args) (st : St)
    (p q : LoopParams) (o : Z) (outs ins0 ins : list Z) :
  enumerates p (o :: outs) ->
  enumerates q ins0 -> ins0 <> [] ->
  instantiable (Reset q) = true ->
  (outs <> [] -> enumerates (Reset q) ins /\ ins <> []) ->
  (forall fuel,
     (length (o :: outs) + Nat.max (length ins0) (length ins) < fuel)%nat ->
     NestedForLoop_2 fuel p q func args st =
     Done (invoke_pairs func args
             (map (fun i => (i, o)) ins0 ++ inner_fastest ins outs) st)) /\
  (CurrIdx q = StartIdx q ->
   forall fuel,
     (length (o :: outs) + Nat.max (length ins0) (length ins) < fuel)%nat ->
     NestedForLoop_2 fuel p q func args st =
     Done (invoke_pairs func args (inner_fastest ins0 (o :: outs)) st)) /\
  (forall fuel log, (6 <= fuel)%nat ->
     NestedForLoop_2 fuel (LoopParams_ 0 2 None None None None)
       (LoopParams_ 0 3 None None None None) func args st =
     Done (invoke_pairs func args
             [(0, 0); (1, 0); (2, 0); (0, 1); (1, 1); (2, 1)] st) /\
     NestedForLoop_2 fuel (LoopParams_ 0 2 None None None None)
       (LoopParams_ 0 3 None None None None) record_pair args log =
     Done (log ++ [(0, 0); (1, 0); (2, 0); (0, 1); (1, 1); (2, 1)])).
Proof.
  intros Hp Hq Hne0 Hinst Hr.
  assert (Hmain : forall fuel,
     (length (o :: outs) + Nat.max (length ins0) (length ins) < fuel)%nat ->
     NestedForLoop_2 fuel p q func args st =
     Done (invoke_pairs func args
             (map (fun i => (i, o)) ins0 ++ inner_fastest ins outs) st)).
  { intros fuel Hf. destruct fuel as [|fuel]; [lia|].
    inversion Hp as [| p' p_next outs' Hnext Hv Hrest]; subst.
    rewrite (Nested_both_valid func args fuel p p_next q st Hnext
               (enumerates_instantiable _ _ Hq) Hv
               (enumerates_valid _ _ Hq Hne0)).
    rewrite (ForLoop_enumerates_list _ _ q ins0 Hq) by (simpl in Hf; lia).
    cbn [and_then]. rewrite invoke_each_pack, invoke_pairs_app.
    destruct outs as [|o' outs].
    - inversion Hrest as [p'' Hi' Hv' |]; subst.
      destruct fuel as [|fuel]; [simpl in Hf; lia|].
      now apply Nested_outer_invalid.
    - destruct Hr as [Hr Hne]; [discriminate|].
      apply (Nested_enumerates_reset func args p_next (o' :: outs) Hrest
               (Reset q) ins);
        [ apply Reset_idempotent | assumption | intros _; assumption
        | simpl in Hf |- *; lia ]. }
  split; [exact Hmain|]. split.
  - intros Hstart fuel Hf. rewrite (Hmain fuel Hf).
    rewrite inner_fastest_cons. destruct outs as [|o' outs]; [reflexivity|].
    destruct Hr as [Hr _]; [discriminate|].
    rewrite (Reset_at_start q Hstart) in Hr.
    now rewrite (enumerates_functional q ins0 Hq ins Hr).
  - intros fuel log Hf. split.
    + now apply (@Nested_at_least _ _ _ _ 6%nat).
    + apply (@Nested_at_least _ _ _ _ 6%nat); [|assumption].
      rewrite <- (invoke_pairs_record args _ log). reflexivity.
Qed.

Lemma NestedForLoop_2_inner_fastest_witness :
  NestedForLoop_2 6 (LoopParams_ 0 2 None None None None)
    (LoopParams_ 0 3 None None None None) (@record_pair unit) tt [] =
  Done [(0, 0); (1, 0); (2, 0); (0, 1); (1, 1); (2, 1)].
Proof.
  destruct (NestedForLoop_2_inner_fastest (@record_pair unit) tt []
              (LoopParams_ 0 2 None None None None)
              (LoopParams_ 0 3 None None None None)
              0 [1] [0; 1; 2] [0; 1; 2] enumerates_0_2 enumerates_0_3)
    as (H & _).
  - discriminate.
  - reflexivity.
  - intros _. split; [exact enumerates_0_3 | discriminate].
  - apply (H 6%nat). simpl. lia.
Defined.

(** C4.  A valid outer state with an inner state whose predicate fails:
    none of the two overloads of [NestedForLoop_2] is viable, the call is
    rejected and never returns [Done], although the inner pass alone would
    be a silent empty [ForLoop] and an empty outer range is accepted.
    The instance is the usage example of the header's documentation:
    outer [LoopParams<0, 10>], inner [LoopParams<10, 0, -1>]. *)
Theorem NestedForLoop_2_empty_inner {Args St : Type}
    (func : Z -> Z -> Args -> St -> St) (args : Args) (st : St)
    (p q : LoopParams) (fuel : nat) :
  IsValid p = true -> IsValid q = false ->
  NestedForLoop_2 (S fuel) p q func args st = IllFormed /\
  (forall fuel' st', NestedForLoop_2 fuel' p q func args st <> Done st') /\
  (instantiable q = true ->
   ForLoop (S fuel) q
     (fun i (pack : Z * Args) => func i (fst pack) (snd pack))
     (GetCurrIdx p, args) st = Done st) /\
  (forall p', instantiable p' = true -> instantiable q = true ->
     IsValid p' = false ->
     NestedForLoop_2 (S fuel) p' q func args st = Done st) /\
  NestedForLoop_2 (S fuel) (LoopParams_ 0 10 None None None None)
    (LoopParams_ 10 0 (Some (-1)) None None None) func args st = IllFormed.
Proof.
  intros Hp Hq. repeat split.
  - now apply Nested_no_overload.
  - intros [|fuel'] st'; [discriminate|].
    now rewrite Nested_no_overload.
  - intros Hi. now apply ForLoop_invalid.
  - intros p' Hp' Hi Hv. now apply Nested_outer_invalid.
Qed.

Lemma NestedForLoop_2_empty_inner_witness :
  NestedForLoop_2 1 (LoopParams_ 0 2 None None None None)
    (LoopParams_ 0 0 None None None None) (@record_pair unit) tt []
  = IllFormed.
Proof.
  apply (NestedForLoop_2_empty_inner (@record_pair unit) tt []
           (LoopParams_ 0 2 None None None None)
           (LoopParams_ 0 0 None None None None) 0); reflexivity.
Defined.

(** * Further properties of the header *)

(** ** What [ForLoop] depends on *)

(** [ForLoop] looks at a state through its current index, its change
    value, its modifier and the predicate [x |-> Comparator()(x, EndIdx)]
    only. *)
Lemma ForLoop_ext {Args St : Type} (func : Z -> Args -> St -> St)
    (args : Args) (fuel : nat) :
  forall (LP1 LP2 : LoopParams) (st : St),
  CurrIdx LP1 = CurrIdx LP2 -> ChangeVal LP1 = ChangeVal LP2 ->
  Modifier LP1 = Modifier LP2 ->
  (forall x, Comparator LP1 x (EndIdx LP1) = Comparator LP2 x (EndIdx LP2)) ->
  ForLoop fuel LP1 func args st = ForLoop fuel LP2 func args st.
Proof.
  induction fuel as [|fuel IH]; intros LP1 LP2 st Hc Hd Hm Hcmp;
    [reflexivity|].
  simpl. unfold GetNext, IsValid, GetCurrIdx. rewrite Hc, Hd, Hm, Hcmp.
  destruct (Modifier LP2 (CurrIdx LP2) (ChangeVal LP2)) as [i|];
    [|reflexivity].
  destruct (fits_int i); [|reflexivity].
  destruct (Comparator LP2 (CurrIdx LP2) (EndIdx LP2)); [|reflexivity].
  apply IH; auto.
Qed.

(** X1. The inclusive entry points are the exclusive ones with the end
    index moved by one: for every start, end and step (given or omitted),
    callback and fuel, [ForLoopLessThanEqualTo<s, e>] has the outcome of
    [ForLoopLessThan<s, e + 1>] and [ForLoopGreaterThanEqualTo<s, e>] that
    of [ForLoopGreaterThan<s, e - 1>], whenever the moved end index is an
    [int]; and the [StartIdx] argument of a state never influences
    [ForLoop]. *)
Theorem inclusive_is_exclusive_shifted {Args St : Type}
    (func : Z -> Args -> St -> St) (args : Args) (st : St)
    (fuel : nat) (s e : Z) (c : option Z) :
  (fits_int (e + 1) = true ->
   ForLoopLessThanEqualTo fuel s e c func args st =
   ForLoopLessThan fuel s (e + 1) c func args st) /\
  (fits_int (e - 1) = true ->
   ForLoopGreaterThanEqualTo fuel s e c func args st =
   ForLoopGreaterThan fuel s (e - 1) c func args st) /\
  (forall LP start',
   ForLoop fuel LP func args st =
   ForLoop fuel
     (MkLoopParams (CurrIdx LP) (EndIdx LP) (ChangeVal LP) (Comparator LP)
        (Modifier LP) start')
     func args st).
Proof.
  split; [|split].
  - intros _. unfold ForLoopLessThanEqualTo, ForLoopLessThan.
    apply ForLoop_ext; try reflexivity.
    intros x; cbn. now rewrite less_equal_below.
  - intros _. unfold ForLoopGreaterThanEqualTo, ForLoopGreaterThan.
    apply ForLoop_ext; try reflexivity.
    intros x; cbn. now rewrite greater_equal_above, greater_above.
  - intros LP start'. now apply ForLoop_ext.
Qed.

Lemma inclusive_is_exclusive_shifted_witness :
  ForLoopLessThanEqualTo 30 1 20 None (@record_index unit) tt [] =
  ForLoopLessThan 30 1 21 None (@record_index unit) tt [].
Proof.
  destruct (inclusive_is_exclusive_shifted (@record_index unit) tt [] 30
              1 20 None) as (H & _).
  exact (H eq_refl).
Defined.

(** ** No iteration cap *)








(** ** A step of the wrong sign *)

Section WrongDirection.
Context {Args St : Type}.
Variable func : Z -> Args -> St -> St.
Variable args : Args.
Variable cmp : Z -> Z -> bool.
Variables e bound c s0 : Z.

Lemma ForLoop_down_never_returns :
  c < 0 -> (forall x, cmp x e = (x <? bound)) ->
  forall (fuel : nat) (s : Z) (st st' : St), s < bound ->
  ForLoop fuel (MkLoopParams s e c cmp std.plus s0) func args st <> Done st'.
Proof.
  intros Hc Hcmp. induction fuel as [|fuel IH]; intros s st st' Hs;
    [discriminate|].
  destruct (fits_int (s + c)) eqn:E.
  - rewrite (ForLoop_valid func args fuel _
               (MkLoopParams (s + c) e c cmp std.plus s0)).
    + apply IH. lia.
    + now rewrite GetNext_plus, E.
    + unfold IsValid; cbn. rewrite Hcmp. now apply Z.ltb_lt.
  - rewrite ForLoop_rejected; [discriminate|]. now rewrite GetNext_plus, E.
Qed.

Lemma ForLoop_down_overflows :
  c < 0 -> (forall x, cmp x e = (x <? bound)) ->
  forall (fuel : nat) (s : Z) (st : St), s < bound ->
  (1 <= fuel)%nat -> s - INT_MIN < Z.of_nat fuel ->
  ForLoop fuel (MkLoopParams s e c cmp std.plus s0) func args st = IllFormed.
Proof.
  intros Hc Hcmp. induction fuel as [|fuel IH]; intros s st Hs H1 Hf; [lia|].
  destruct (fits_int (s + c)) eqn:E.
  - rewrite (ForLoop_valid func args fuel _
               (MkLoopParams (s + c) e c cmp std.plus s0)).
    + apply fits_int_iff in E. apply IH; lia.
    + now rewrite GetNext_plus, E.
    + unfold IsValid; cbn. rewrite Hcmp. now apply Z.ltb_lt.
  - apply ForLoop_rejected. now rewrite GetNext_plus, E.
Qed.

Lemma ForLoop_up_never_returns :
  0 < c -> (forall x, cmp x e = (bound <? x)) ->
  forall (fuel : nat) (s : Z) (st st' : St), bound < s ->
  ForLoop fuel (MkLoopParams s e c cmp std.plus s0) func args st <> Done st'.
Proof.
  intros Hc Hcmp. induction fuel as [|fuel IH]; intros s st st' Hs;
    [discriminate|].
  destruct (fits_int (s + c)) eqn:E.
  - rewrite (ForLoop_valid func args fuel _
               (MkLoopParams (s + c) e c cmp std.plus s0)).
    + apply IH. lia.
    + now rewrite GetNext_plus, E.
    + unfold IsValid; cbn. rewrite Hcmp. now apply Z.ltb_lt.
  - rewrite ForLoop_rejected; [discriminate|]. now rewrite GetNext_plus, E.
Qed.

Lemma ForLoop_up_overflows :
  0 < c -> (forall x, cmp x e = (bound <? x)) ->
  forall (fuel : nat) (s : Z) (st : St), bound < s ->
  (1 <= fuel)%nat -> INT_MAX - s < Z.of_nat fuel ->
  ForLoop fuel (MkLoopParams s e c cmp std.plus s0) func args st = IllFormed.
Proof.
  intros Hc Hcmp. induction fuel as [|fuel IH]; intros s st Hs H1 Hf; [lia|].
  destruct (fits_int (s + c)) eqn:E.
  - rewrite (ForLoop_valid func args fuel _
               (MkLoopParams (s + c) e c cmp std.plus s0)).
    + apply fits_int_iff in E. apply IH; lia.
    + now rewrite GetNext_plus, E.
    + unfold IsValid; cbn. rewrite Hcmp. now apply Z.ltb_lt.
  - apply ForLoop_rejected. now rewrite GetNext_plus, E.
Qed.

End WrongDirection.

(** X4. A step of the wrong sign on a non-empty range never returns: with
    a negative step and a start index below the end, [ForLoopLessThan]
    (and [ForLoopLessThanEqualTo] from a start index not above the end)
    invokes nothing and is rejected as soon as the depth allowed exceeds
    the distance from the start index to [INT_MIN], the index leaving
    [int]; symmetrically for [ForLoopGreaterThan] and
    [ForLoopGreaterThanEqualTo] with a positive step, towards [INT_MAX]. *)
Theorem wrong_direction_never_returns {Args St : Type}
    (func : Z -> Args -> St -> St) (args : Args) (st : St) (s e c : Z) :
  (c < 0 -> s < e ->
     (forall fuel st',
        ForLoopLessThan fuel s e (Some c) func args st <> Done st') /\
     (forall fuel, (1 <= fuel)%nat -> s - INT_MIN < Z.of_nat fuel ->
        ForLoopLessThan fuel s e (Some c) func args st = IllFormed)) /\
  (c < 0 -> s <= e ->
     (forall fuel st',
        ForLoopLessThanEqualTo fuel s e (Some c) func args st <> Done st') /\
     (forall fuel, (1 <= fuel)%nat -> s - INT_MIN < Z.of_nat fuel ->
        ForLoopLessThanEqualTo fuel s e (Some c) func args st = IllFormed)) /\
  (0 < c -> e < s ->
     (forall fuel st',
        ForLoopGreaterThan fuel s e (Some c) func args st <> Done st') /\
     (forall fuel, (1 <= fuel)%nat -> INT_MAX - s < Z.of_nat fuel ->
        ForLoopGreaterThan fuel s e (Some c) func args st = IllFormed)) /\
  (0 < c -> e <= s ->
     (forall fuel st',
        ForLoopGreaterThanEqualTo fuel s e (Some c) func args st
        <> Done st') /\
     (forall fuel, (1 <= fuel)%nat -> INT_MAX - s < Z.of_nat fuel ->
        ForLoopGreaterThanEqualTo fuel s e (Some c) func args st
        = IllFormed)).
Proof.
  unfold ForLoopLessThan, ForLoopLessThanEqualTo, ForLoopGreaterThan,
    ForLoopGreaterThanEqualTo.
  split; [|split; [|split]]; intros Hc Hs; split.
  - intros fuel st'.
    apply (ForLoop_down_never_returns func args std.less e e c s Hc
             (less_below e)); lia.
  - intros fuel H1 Hf.
    apply (ForLoop_down_overflows func args std.less e e c s Hc
             (less_below e)); lia.
  - intros fuel st'.
    apply (ForLoop_down_never_returns func args std.less_equal e (e + 1) c s
             Hc (less_equal_below e)); lia.
  - intros fuel H1 Hf.
    apply (ForLoop_down_overflows func args std.less_equal e (e + 1) c s Hc
             (less_equal_below e)); lia.
  - intros fuel st'.
    apply (ForLoop_up_never_returns func args std.greater e e c s Hc
             (greater_above e)); lia.
  - intros fuel H1 Hf.
    apply (ForLoop_up_overflows func args std.greater e e c s Hc
             (greater_above e)); lia.
  - intros fuel st'.
    apply (ForLoop_up_never_returns func args std.greater_equal e (e - 1) c s
             Hc (greater_equal_above e)); lia.
  - intros fuel H1 Hf.
    apply (ForLoop_up_overflows func args std.greater_equal e (e - 1) c s Hc
             (greater_equal_above e)); lia.
Qed.

Lemma wrong_direction_never_returns_witness :
  ForLoopLessThan 5 (-2147483646) 0 (Some (-1)) (@record_index unit) tt []
  = IllFormed.
Proof.
  destruct (wrong_direction_never_returns (@record_index unit) tt []
              (-2147483646) 0 (-1)) as (H & _).
  destruct H as (_ & H); [lia | lia |].
  apply (H 5%nat); [lia | vm_compute; reflexivity].
Defined.

(** ** The equal-to entry point *)



(** ** Shape of a nested enumeration *)

Lemma inner_fastest_length (ins outs : list Z) :
  length (inner_fastest ins outs) = (length outs * length ins)%nat.
Proof.
  induction outs as [|o outs IH]; [reflexivity|].
  rewrite inner_fastest_cons, length_app, length_map, IH. reflexivity.
Qed.

Lemma inner_fastest_nth (ins : list Z) : forall (outs : list Z) (i j : nat),
  (i < length ins)%nat -> (j < length outs)%nat ->
  nth_error (inner_fastest ins outs) (j * length ins + i) =
  Some (nth i ins 0, nth j outs 0).
Proof.
  induction outs as [|o outs IH]; intros i j Hi Hj; [simpl in Hj; lia|].
  rewrite inner_fastest_cons. destruct j as [|j].
  - rewrite nth_error_app1 by (rewrite length_map; simpl; lia).
    simpl. rewrite nth_error_map, (nth_error_nth' ins 0 Hi). reflexivity.
  - rewrite nth_error_app2 by (rewrite length_map; simpl; lia).
    rewrite length_map.
    replace (S j * length ins + i - length ins)%nat
      with (j * length ins + i)%nat by (simpl; lia).
    simpl in Hj. rewrite IH by lia. reflexivity.
Qed.

(** An outer loop whose callback runs one inner pass. *)
Lemma invoke_each_inner_passes {Args St : Type}
    (func : Z -> Z -> Args -> St -> St) (args : Args) (ins : list Z) :
  forall (outs : list Z) (st : St),
  invoke_each
    (fun o a s => invoke_pairs func a (map (fun i => (i, o)) ins) s)
    args outs st =
  invoke_pairs func args (inner_fastest ins outs) st.
Proof.
  induction outs as [|o outs IH]; intros st; [reflexivity|].
  rewrite invoke_each_cons, IH, inner_fastest_cons, invoke_pairs_app.
  reflexivity.
Qed.

(** X6. Let the outer enumeration complete over the indices [outs], let
    the inner state be passed at its start index and let its enumeration
    complete over [ins], with [ins] not empty unless [outs] is empty.
    Then the callback is invoked [length outs * length ins] times; the
    invocation number [j * length ins + i] receives the i-th inner index
    and the j-th outer index; and the whole call has the outcome of a
    single [ForLoop] over the outer state whose callback performs one
    inner pass. *)
Theorem NestedForLoop_2_loop_of_loops {Args St : Type}
    (func : Z -> Z -> Args -> St -> St) (args : Args) (st : St)
    (log : list (Z * Z)) (p q : LoopParams) (outs ins : list Z) :
  enumerates p outs -> CurrIdx q = StartIdx q -> enumerates q ins ->
  (outs <> [] -> ins <> []) ->
  forall fuel, (length outs + length ins < fuel)%nat ->
  NestedForLoop_2 fuel p q record_pair args log =
    Done (log ++ inner_fastest ins outs) /\
  length (inner_fastest ins outs) = (length outs * length ins)%nat /\
  (forall i j, (i < length ins)%nat -> (j < length outs)%nat ->
     nth_error (inner_fastest ins outs) (j * length ins + i) =
     Some (nth i ins 0, nth j outs 0)) /\
  NestedForLoop_2 fuel p q func args st =
    ForLoop fuel p
      (fun o a s => invoke_pairs func a (map (fun i => (i, o)) ins) s)
      args st.
Proof.
  intros Hp Hstart Hq Hne fuel Hf.
  pose proof (Reset_at_start q Hstart) as Hreset.
  split; [|split; [|split]].
  - rewrite (Nested_enumerates_reset record_pair args p outs Hp q ins log
               fuel Hreset Hq Hne Hf).
    now rewrite invoke_pairs_record.
  - apply inner_fastest_length.
  - intros i j. apply inner_fastest_nth.
  - rewrite (Nested_enumerates_reset func args p outs Hp q ins st fuel Hreset
               Hq Hne Hf).
    rewrite (ForLoop_enumerates_list _ args p outs Hp st fuel) by lia.
    now rewrite invoke_each_inner_passes.
Qed.

Lemma NestedForLoop_2_loop_of_loops_witness :
  length (inner_fastest [0; 1; 2] [0; 1]) = 6%nat /\
  NestedForLoop_2 6 (LoopParams_ 0 2 None None None None)
    (LoopParams_ 0 3 None None None None) (@record_pair unit) tt [] =
  Done (inner_fastest [0; 1; 2] [0; 1]).
Proof.
  destruct (NestedForLoop_2_loop_of_loops (@record_pair unit) tt [] []
              (LoopParams_ 0 2 None None None None)
              (LoopParams_ 0 3 None None None None) [0; 1] [0; 1; 2]
              enumerates_0_2 eq_refl enumerates_0_3
              ltac:(discriminate) 6%nat ltac:(simpl; lia))
    as (Hrun & Hlen & _).
  split; [exact Hlen | exact Hrun].
Defined.

(** ** A later inner pass that is empty *)

Lemma Nested_inner_rejected {Args St : Type}
    (func : Z -> Z -> Args -> St -> St) (args : Args) (fuel : nat)
    (p q : LoopParams) (st : St) :
  instantiable q = false ->
  NestedForLoop_2 (S fuel) p q func args st = IllFormed.
Proof.
  unfold instantiable. simpl. destruct (GetNext p); [|reflexivity].
  destruct (GetNext q); [discriminate | reflexivity].
Qed.

(** X7. Let the enumeration of the inner state, from its current index as
    passed, complete over [ins0], not empty, and let the inner state fail
    its predicate at its start index.  When the outer enumeration
    completes over exactly one index, the call returns after the single
    pass over the inner state as passed if the class of the reset inner
    state can be instantiated, and is rejected if it cannot.  When the
    outer enumeration completes over two or more indices the second pass,
    over the reset state, has no viable overload: the whole call is
    rejected and never returns, the first pass included. *)
Theorem NestedForLoop_2_later_pass_empty {Args St : Type}
    (func : Z -> Z -> Args -> St -> St) (args : Args) (st : St)
    (q : LoopParams) (ins0 : list Z) :
  enumerates q ins0 -> ins0 <> [] -> IsValid (Reset q) = false ->
  (forall p o, enumerates p [o] ->
     forall fuel, (1 + length ins0 < fuel)%nat ->
     NestedForLoop_2 fuel p q func args st =
     if instantiable (Reset q)
     then Done (invoke_pairs func args (map (fun i => (i, o)) ins0) st)
     else IllFormed) /\
  (forall p o o' outs, enumerates p (o :: o' :: outs) ->
     (forall fuel, (1 + length ins0 < fuel)%nat ->
        NestedForLoop_2 fuel p q func args st = IllFormed) /\
     (forall fuel st', NestedForLoop_2 fuel p q func args st <> Done st')).
Proof.
  intros Hq Hne Hreset.
  assert (Hfirst : forall p p_next fuel,
    GetNext p = Some p_next -> IsValid p = true ->
    (length ins0 < fuel)%nat ->
    NestedForLoop_2 (S fuel) p q func args st =
    NestedForLoop_2 fuel p_next (Reset q) func args
      (invoke_pairs func args (map (fun i => (i, GetCurrIdx p)) ins0) st)).
  { intros p p_next fuel Hnext Hv Hf.
    rewrite (Nested_both_valid func args fuel p p_next q st Hnext
               (enumerates_instantiable _ _ Hq) Hv
               (enumerates_valid _ _ Hq Hne)).
    rewrite (ForLoop_enumerates_list _ _ q ins0 Hq) by assumption.
    cbn [and_then]. now rewrite invoke_each_pack. }
  split.
  - intros p o Hp fuel Hf.
    inversion Hp as [| p' p_next outs' Hnext Hv Hrest]; subst.
    inversion Hrest as [p'' Hi' Hv' |]; subst.
    destruct fuel as [|fuel]; [lia|].
    rewrite (Hfirst p p_next fuel Hnext Hv) by lia.
    destruct fuel as [|fuel]; [lia|].
    destruct (instantiable (Reset q)) eqn:Hinst.
    + now apply Nested_outer_invalid.
    + now apply Nested_inner_rejected.
  - intros p o o' outs Hp.
    assert (Hrej : forall fuel, (1 + length ins0 < fuel)%nat ->
              NestedForLoop_2 fuel p q func args st = IllFormed).
    { intros fuel Hf.
      inversion Hp as [| p' p_next outs' Hnext Hv Hrest]; subst.
      destruct fuel as [|fuel]; [lia|].
      rewrite (Hfirst p p_next fuel Hnext Hv) by lia.
      destruct fuel as [|fuel]; [lia|].
      apply Nested_no_overload; [|assumption].
      apply (enumerates_valid p_next (o' :: outs) Hrest). discriminate. }
    split; [exact Hrej|].
    intros fuel st' H.
    pose proof (Nested_at_least func args fuel p q st st' H
                  (fuel + (2 + length ins0))%nat ltac:(lia)) as H'.
    rewrite Hrej in H' by lia. discriminate.
Qed.

Lemma NestedForLoop_2_later_pass_empty_witness :
  NestedForLoop_2 4 (LoopParams_ 0 2 None None None None)
    (LoopParams_ 1 3 None None None (Some 5)) (@record_pair unit) tt []
  = IllFormed.
Proof.
  assert (Hq : enumerates (LoopParams_ 1 3 None None None (Some 5)) [1; 2]).
  { apply (enumerates_step (MkLoopParams 1 3 1 std.less std.plus 5)
             (MkLoopParams 2 3 1 std.less std.plus 5)); try reflexivity.
    apply (enumerates_step (MkLoopParams 2 3 1 std.less std.plus 5)
             (MkLoopParams 3 3 1 std.less std.plus 5)); try reflexivity.
    now apply enumerates_stop. }
  destruct (NestedForLoop_2_later_pass_empty (@record_pair unit) tt []
              (LoopParams_ 1 3 None None None (Some 5)) [1; 2] Hq
              ltac:(discriminate) eq_refl) as (_ & H).
  destruct (H (LoopParams_ 0 2 None None None None) 0 1 [] enumerates_0_2)
    as (Hrej & _).
  apply (Hrej 4%nat). simpl. lia.
Defined.

(** ** The indices a callback can receive *)

Lemma GetNext_fits (LP next : LoopParams) :
  GetNext LP = Some next -> fits_int (CurrIdx next) = true.
Proof.
  unfold GetNext. destruct (Modifier LP _ _) as [i|]; [|discriminate].
  destruct (fits_int i) eqn:E; [|discriminate].
  now intros [= <-].
Qed.

Lemma visited_head (n : nat) (LP : LoopParams) (i : Z) :
  nth_error (visited n LP) 0 = Some i -> i = CurrIdx LP.
Proof. destruct n; simpl; [discriminate | now intros [= <-]]. Qed.

Lemma visited_chain (n : nat) : forall (LP last : LoopParams),
  advance n LP = Some last ->
  (forall k LPk, (k < n)%nat -> advance k LP = Some LPk ->
                 IsValid LPk = true) ->
  Forall (fun i => Comparator LP i (EndIdx LP) = true) (visited n LP) /\
  (forall k i j,
     nth_error (visited n LP) k = Some i ->
     nth_error (visited n LP) (S k) = Some j ->
     Modifier LP i (ChangeVal LP) = Some j /\ fits_int j = true).
Proof.
  induction n as [|n IH]; intros LP last Hadv Hvalid.
  - split; [constructor | intros [|k] i j; discriminate].
  - destruct (advance_S_inv _ _ _ Hadv) as (next & Hnext & Hadv').
    destruct (IH next last Hadv') as [IHv IHc].
    { intros k LPk Hk HLPk. apply (Hvalid (S k)); [lia|].
      simpl. now rewrite Hnext. }
    pose proof (GetNext_fields _ _ Hnext) as (Hm & He & Hd & Hcmp & Hmod & _).
    rewrite He, Hd, Hcmp, Hmod in *.
    simpl visited. rewrite Hnext. split.
    + constructor; [|exact IHv].
      apply (Hvalid 0%nat LP); [lia | reflexivity].
    + intros [|k] i j; simpl.
      * intros [= <-] Hj. apply visited_head in Hj. subst j.
        split; [exact Hm | exact (GetNext_fits _ _ Hnext)].
      * apply IHc.
Qed.

(** X8. Whatever the state and the fuel, a [ForLoop] that returns has
    invoked the callback on a list of indices that does not depend on the
    callback (the result is the callback folded over the log a recording
    callback produces); the first index is the current index of the state,
    every index satisfies [Comparator()(index, EndIdx)], and each index
    after the first is [Modifier()(previous, ChangeVal)] and an [int]. *)
Theorem ForLoop_indices {Args St : Type}
    (func : Z -> Args -> St -> St) (args : Args) (st st' : St)
    (LP : LoopParams) (fuel : nat) :
  ForLoop fuel LP func args st = Done st' ->
  exists log,
    ForLoop fuel LP record_index args [] = Done log /\
    st' = invoke_each func args log st /\
    (forall i, nth_error log 0 = Some i -> i = GetCurrIdx LP) /\
    Forall (fun i => GetComparator LP i (GetEndIdx LP) = true) log /\
    (forall k i j, nth_error log k = Some i ->
       nth_error log (S k) = Some j ->
       GetModifier LP i (GetChangeVal LP) = Some j /\ fits_int j = true).
Proof.
  intros H. apply ForLoop_Done_inv in H.
  destruct H as (n & last & Hn & Hadv & Hvalid & Hlast & Hinst & ->).
  exists (visited n LP).
  destruct (visited_chain n LP last Hadv Hvalid) as [Hall Hchain].
  repeat split; try assumption.
  - rewrite (ForLoop_enumerates record_index args n LP last [] fuel Hadv
               Hvalid Hlast Hinst Hn).
    now rewrite invoke_each_record.
  - intros i. apply visited_head.
  - now apply (Hchain k i j).
  - now apply (Hchain k i j).
Qed.

Lemma ForLoop_indices_witness :
  exists log,
    ForLoop 5 (LoopParams_ 1 8 (Some 2) (Some std.less_equal)
                 (Some std.multiplies) None) (@record_index unit) tt []
    = Done log /\
    Forall (fun i => std.less_equal i 8 = true) log.
Proof.
  destruct (ForLoop_indices (@record_index unit) tt [] [1; 2; 4; 8]
              (LoopParams_ 1 8 (Some 2) (Some std.less_equal)
                 (Some std.multiplies) None) 5 eq_refl)
    as (log & Hrun & _ & _ & Hall & _).
  exists log. split; [exact Hrun | exact Hall].
Defined.

(** ** The example program *)

Lemma invoke_each_printer {Args : Type} (pr : Z -> Args -> line)
    (args : Args) (idxs : list Z) : forall out : list line,
  invoke_each (fun i a o => (o ++ [pr i a])%list) args idxs out =
  (out ++ map (fun i => pr i args) idxs)%list.
Proof.
  induction idxs as [|i idxs IH]; intros out.
  - simpl. now rewrite app_nil_r.
  - rewrite invoke_each_cons, IH. simpl. now rewrite <- app_assoc.
Qed.

(** X9. Whatever was written before, [main] appends thirty-six lines to
    the output, in this order: nine lines "Functor " with 50, 45, ..., 10
    (the indices 10, ..., 2 times the extra argument 5), then twenty lines
    "Lambda " with 1, ..., 20, then seven lines "Power of 2: " with
    1, 2, 4, ..., 64.  The model follows each of the three calls for
    [fuel] levels; 21 levels are enough for all of them. *)
Theorem main_prints (fuel : nat) (out : list line) :
  (21 <= fuel)%nat ->
  main fuel out =
  Done (out ++
        map (fun i => Line "Functor " (i * 5)) (arith_seq 10 (-1) 9) ++
        map (Line "Lambda ") (arith_seq 1 1 20) ++
        map (Line "Power of 2: ") [1; 2; 4; 8; 16; 32; 64]) /\
  length (map (fun i => Line "Functor " (i * 5)) (arith_seq 10 (-1) 9) ++
          map (Line "Lambda ") (arith_seq 1 1 20) ++
          map (Line "Power of 2: ") [1; 2; 4; 8; 16; 32; 64]) = 36%nat.
Proof.
  intros Hf. split; [|reflexivity].
  set (l1 := arith_seq 10 (-1) 9). set (l2 := arith_seq 1 1 20).
  set (l3 := [1; 2; 4; 8; 16; 32; 64]).
  assert (H1 : forall o, ForLoopGreaterThan fuel 10 1 None MyFunc 5 o =
                         Done (invoke_each MyFunc 5 l1 o)).
  { intros o. apply (@ForLoop_at_least _ _ _ _ 21%nat); [|assumption].
    reflexivity. }
  assert (H2 : forall o,
             ForLoopLessThanEqualTo fuel 1 20 None print_lambda tt o =
             Done (invoke_each print_lambda tt l2 o)).
  { intros o. apply (@ForLoop_at_least _ _ _ _ 21%nat); [|assumption].
    reflexivity. }
  assert (H3 : forall o,
             ForLoop fuel
               (LoopParams_ 1 64 (Some 2) (Some std.less_equal)
                  (Some std.multiplies) None)
               print_power "Power of 2: "%string o =
             Done (invoke_each print_power "Power of 2: "%string l3 o)).
  { intros o. apply (@ForLoop_at_least _ _ _ _ 21%nat); [|assumption].
    reflexivity. }
  unfold main. rewrite H1. unfold and_then at 1.
  rewrite H2. unfold and_then. rewrite H3.
  unfold MyFunc, print_lambda, print_power.
  rewrite (invoke_each_printer (fun i val => Line "Functor " (i * val))).
  rewrite (invoke_each_printer (fun a _ => Line "Lambda " a)).
  rewrite (invoke_each_printer (fun idx str => Line str idx)).
  now rewrite <- !app_assoc.
Qed.

Lemma main_prints_witness :
  exists out, main 21 [] = Done out /\ length out = 36%nat.
Proof.
  destruct (main_prints 21 []) as (H21 & Hlen); [lia|].
  eexists. split; [exact H21 | exact Hlen].
Defined.
